(** * PayFlow settlement core: ledger engine and settlement coordinator

    Shallow embedding of [shared/sdk/core.ts] (class [PayFlowSDK] and the
    payment requests of [InvoiceFlowSDK] and [StockFlowSDK]),
    [shared/middleware/validation.ts] (class [BusinessValidation]),
    [shared/services/integrationService.ts], the PayFlow
    [IntegrationService.transferMoney] wrapper and the payment functions of
    [functions/src/index.ts] (the callable functions, [processMoMoPayment]
    and [momoWebhook]), over an explicit model of the Firestore document
    store.

    Conventions of the embedding.
    - Amounts, balances and quantities are [Z]: the numbers of the source
      restricted to integers, as the data model of the specification counts
      them in the smallest currency unit.  Constants of the source are kept
      as written; the scenarios scale the example figures of the
      specification by 100 (57.50 becomes 5750).
    - [Date] values are [Z] (milliseconds); every operation receives the
      value of [new Date()] as the explicit argument [now].
    - A collection is a [gmap] from document id to document.  The
      [transactions] collection, whose documents are only created with
      auto-generated ids, is a list: the id of a record is its position.
    - Only the document fields read or written by the modelled code are
      kept in the records.
    - [runTransaction] is executed atomically on the current store: reads
      see the store as it was when the transaction began, writes are
      buffered and applied in order at commit, and a raised error discards
      the buffer. *)

From Stdlib Require Import ZArith Lia.
From stdpp Require Import gmap strings list fin_maps pretty.

Open Scope string_scope.
Open Scope list_scope.
Open Scope Z_scope.

(** ** Data model ([shared/types/index.ts]) *)

Inductive TransactionType :=
  wallet_topup | invoice_payment | product_purchase | transfer.

Inductive TransactionStatus :=
  tx_pending | tx_completed | tx_failed | tx_cancelled.

Inductive SourceApp := payflow | invoiceflow | stockflow.

Inductive InvoiceStatus :=
  inv_draft | inv_sent | inv_paid | inv_overdue | inv_cancelled.

Inductive OrderStatus :=
  ord_pending | ord_paid | ord_shipped | ord_delivered | ord_cancelled.

Inductive PaymentMethod := momo | bank_transfer.

#[global] Instance TransactionType_eq_dec : EqDecision TransactionType.
Proof. solve_decision. Defined.
#[global] Instance TransactionStatus_eq_dec : EqDecision TransactionStatus.
Proof. solve_decision. Defined.
#[global] Instance InvoiceStatus_eq_dec : EqDecision InvoiceStatus.
Proof. solve_decision. Defined.
#[global] Instance OrderStatus_eq_dec : EqDecision OrderStatus.
Proof. solve_decision. Defined.

Module User.
Record t := mk {
  email : string;
  walletBalance : Z;
  isActive : bool;
  updatedAt : Z
}.
End User.

Module Company.
Record t := mk { name : string; ownerId : string }.
End Company.

Module Transaction.
Record t := mk {
  payerId : string;
  receiverId : string;
  companyId : option string;
  amount : Z;
  type : TransactionType;
  status : TransactionStatus;
  description : string;
  sourceApp : SourceApp;
  metadata : gmap string string;
  createdAt : Z;
  updatedAt : Z
}.
End Transaction.

Module Invoice.
Record t := mk {
  companyId : string;
  clientEmail : string;
  invoiceNumber : string;
  total : Z;
  status : InvoiceStatus;
  dueDate : Z;
  paidAt : option Z;
  paymentTransactionId : option nat;
  updatedAt : Z
}.
End Invoice.

Module OrderItem.
Record t := mk { productId : string; productName : string; quantity : Z }.
End OrderItem.

Module Order.
Record t := mk {
  companyId : string;
  customerId : string;
  customerEmail : string;
  items : list OrderItem.t;
  total : Z;
  status : OrderStatus;
  paymentTransactionId : option nat;
  updatedAt : Z
}.
End Order.

Module Product.
Record t := mk {
  companyId : string;
  name : string;
  quantity : Z;
  isActive : bool;
  updatedAt : Z
}.
End Product.

Module Notification.
Record t := mk {
  userId : string;
  title : string;
  transactionId : nat;
  read : bool;
  createdAt : Z
}.
End Notification.

(** ** The document store *)

Record Store := mkStore {
  users : gmap string User.t;
  companies : gmap string Company.t;
  invoices : gmap string Invoice.t;
  orders : gmap string Order.t;
  products : gmap string Product.t;
  transactions : list Transaction.t;
  notifications : list Notification.t
}.

(** Result record [{ success, transactionId?, error? }] of the SDK. *)
Inductive PaymentResult :=
| Success (transactionId : nat)
| Failure (error : string).

(** Result record [{ success, error? }] of [updateProductStock]. *)
Inductive StockResult :=
| StockOk
| StockFailure (error : string).

(** *** Transactions of the store

    Writes buffered by [transaction.update] and [transaction.set]. *)
Inductive Write :=
| UpdateUser (id : string) (walletBalance : Z) (updatedAt : Z)
| UpdateProduct (id : string) (quantity : Z) (updatedAt : Z)
| SetTransaction (data : Transaction.t).

Definition set_walletBalance (b at_ : Z) (u : User.t) : User.t :=
  User.mk (User.email u) b (User.isActive u) at_.

Definition set_quantity (q at_ : Z) (p : Product.t) : Product.t :=
  Product.mk (Product.companyId p) (Product.name p) q (Product.isActive p) at_.

Definition with_users (s : Store) (m : gmap string User.t) : Store :=
  mkStore m (companies s) (invoices s) (orders s) (products s)
          (transactions s) (notifications s).

Definition with_products (s : Store) (m : gmap string Product.t) : Store :=
  mkStore (users s) (companies s) (invoices s) (orders s) m
          (transactions s) (notifications s).

Definition with_invoices (s : Store) (m : gmap string Invoice.t) : Store :=
  mkStore (users s) (companies s) m (orders s) (products s)
          (transactions s) (notifications s).

Definition with_orders (s : Store) (m : gmap string Order.t) : Store :=
  mkStore (users s) (companies s) (invoices s) m (products s)
          (transactions s) (notifications s).

Definition with_transactions (s : Store) (l : list Transaction.t) : Store :=
  mkStore (users s) (companies s) (invoices s) (orders s) (products s)
          l (notifications s).

Definition with_notifications (s : Store) (l : list Notification.t) : Store :=
  mkStore (users s) (companies s) (invoices s) (orders s) (products s)
          (transactions s) l.

(** Applying one buffered write at commit.  An update merges the given
    fields into the existing document; a set creates the new record. *)
Definition apply_write (s : Store) (w : Write) : Store :=
  match w with
  | UpdateUser id b at_ =>
      with_users s (alter (set_walletBalance b at_) id (users s))
  | UpdateProduct id q at_ =>
      with_products s (alter (set_quantity q at_) id (products s))
  | SetTransaction d =>
      with_transactions s (transactions s ++ [d])
  end.

Definition commit (s : Store) (ws : list Write) : Store :=
  foldl apply_write s ws.

(** A transaction body: it reads the snapshot [Store], extends the write
    buffer, and either raises an error message or returns a value. *)
Definition Tx (A : Type) : Type :=
  Store -> list Write -> string + (A * list Write).

Definition tx_ret {A} (a : A) : Tx A := fun _ ws => inr (a, ws).

Definition tx_throw {A} (msg : string) : Tx A := fun _ _ => inl msg.

Definition tx_bind {A B} (m : Tx A) (k : A -> Tx B) : Tx B :=
  fun snap ws =>
    match m snap ws with
    | inl e => inl e
    | inr (a, ws') => k a snap ws'
    end.

Notation "'let*' x ':=' m 'in' k" := (tx_bind m (fun x => k))
  (at level 10, x pattern, m at level 100, k at level 200).
Notation "m ';;;' k" := (tx_bind m (fun _ => k))
  (at level 100, k at level 200, right associativity).

Definition reads_before_writes_error : string :=
  "Firestore transactions require all reads to be executed before all writes.".

Definition update_missing_error : string :=
  "Can't update a document that doesn't exist.".

Section SDK.

(** Whether the store client refuses a [transaction.get] issued after a
    buffered write (the Firestore client does, [true]); with [false] such
    a read is served from the snapshot.  Every result below holds for
    both settings. *)
Variable strict_reads : bool.

Definition tx_read {A} (lookup_doc : Store -> option A) : Tx (option A) :=
  fun snap ws =>
    match ws with
    | _ :: _ =>
        if strict_reads then inl reads_before_writes_error
        else inr (lookup_doc snap, ws)
    | [] => inr (lookup_doc snap, ws)
    end.

(** [transaction.get(doc(db, 'users', id))] *)
Definition tx_get_user (id : string) : Tx (option User.t) :=
  tx_read (fun snap => users snap !! id).

(** [transaction.get(doc(db, 'products', id))] *)
Definition tx_get_product (id : string) : Tx (option Product.t) :=
  tx_read (fun snap => products snap !! id).

(** [transaction.update(userRef, { walletBalance, updatedAt })] *)
Definition tx_update_user (id : string) (b at_ : Z) : Tx unit :=
  fun snap ws =>
    match users snap !! id with
    | None => inl update_missing_error
    | Some _ => inr (tt, ws ++ [UpdateUser id b at_])
    end.

(** [transaction.update(productRef, { quantity, updatedAt })] *)
Definition tx_update_product (id : string) (q at_ : Z) : Tx unit :=
  fun snap ws =>
    match products snap !! id with
    | None => inl update_missing_error
    | Some _ => inr (tt, ws ++ [UpdateProduct id q at_])
    end.

(** [doc(collection(db, 'transactions'))]: a reference with a fresh id. *)
Definition tx_new_transaction_ref : Tx nat :=
  fun snap ws => inr (length (transactions snap), ws).

(** [transaction.set(transactionRef, transactionData)] *)
Definition tx_set_transaction (d : Transaction.t) : Tx unit :=
  fun _ ws => inr (tt, ws ++ [SetTransaction d]).

(** [runTransaction(db, body)]: commit the buffer, or rethrow and leave
    the store as it was. *)
Definition runTransaction {A} (body : Tx A) (s : Store) : Store * (string + A) :=
  match body s [] with
  | inl e => (s, inl e)
  | inr (a, ws) => (commit s ws, inr a)
  end.

(** ** Ledger engine: [PayFlowSDK.processPayment] *)

Record PaymentData := mkPaymentData {
  payerId : string;
  receiverId : string;
  companyId : option string;
  amount : Z;
  type : TransactionType;
  sourceApp : SourceApp;
  description : string;
  metadata : option (gmap string string)
}.

Definition processPayment_body (now : Z) (data : PaymentData) : Tx nat :=
  let* payerDoc := tx_get_user (payerId data) in
  let* receiverDoc := tx_get_user (receiverId data) in
  match payerDoc with
  | None => tx_throw "Payer not found"
  | Some payerData =>
    match receiverDoc with
    | None => tx_throw "Receiver not found"
    | Some receiverData =>
      if negb (User.isActive payerData) || negb (User.isActive receiverData)
      then tx_throw "One or more users are inactive"
      else
        (if decide (type data <> wallet_topup) then
           if User.walletBalance payerData <? amount data
           then tx_throw "Insufficient wallet balance"
           else tx_update_user (payerId data)
                  (User.walletBalance payerData - amount data) now
         else tx_ret tt) ;;;
        tx_update_user (receiverId data)
          (User.walletBalance receiverData + amount data) now ;;;
        let* transactionRef := tx_new_transaction_ref in
        tx_set_transaction
          (Transaction.mk (payerId data) (receiverId data) (companyId data)
             (amount data) (type data) tx_completed (description data)
             (sourceApp data) (default ∅ (metadata data)) now now) ;;;
        tx_ret transactionRef
    end
  end.

Definition processPayment (now : Z) (data : PaymentData) (s : Store)
  : Store * PaymentResult :=
  match runTransaction (processPayment_body now data) s with
  | (s', inr transactionId) => (s', Success transactionId)
  | (s', inl e) => (s', Failure e)
  end.

(** ** Settlement coordinator *)

(** [updateDoc(invoiceRef, { status: 'paid', paidAt, paymentTransactionId,
    updatedAt })]; the store rejects an update of a missing document. *)
Definition mark_invoice_paid (now : Z) (transactionId : nat)
    (inv : Invoice.t) : Invoice.t :=
  Invoice.mk (Invoice.companyId inv) (Invoice.clientEmail inv)
    (Invoice.invoiceNumber inv) (Invoice.total inv) inv_paid
    (Invoice.dueDate inv) (Some now) (Some transactionId) now.

Definition updateDoc_invoice (id : string) (f : Invoice.t -> Invoice.t)
    (s : Store) : string + Store :=
  match invoices s !! id with
  | None => inl "No document to update"
  | Some inv => inr (with_invoices s (<[id := f inv]> (invoices s)))
  end.

(** [updateDoc(orderRef, { status: 'paid', paymentTransactionId,
    updatedAt })] *)
Definition mark_order_paid (now : Z) (transactionId : nat)
    (o : Order.t) : Order.t :=
  Order.mk (Order.companyId o) (Order.customerId o) (Order.customerEmail o)
    (Order.items o) (Order.total o) ord_paid (Some transactionId) now.

Definition updateDoc_order (id : string) (f : Order.t -> Order.t)
    (s : Store) : string + Store :=
  match orders s !! id with
  | None => inl "No document to update"
  | Some o => inr (with_orders s (<[id := f o]> (orders s)))
  end.

Definition invoice_payment_data (invoiceId payerId : string)
    (invoice : Invoice.t) (company : Company.t) : PaymentData :=
  {| payerId := payerId;
     receiverId := Company.ownerId company;
     companyId := Some (Invoice.companyId invoice);
     amount := Invoice.total invoice;
     type := invoice_payment;
     sourceApp := invoiceflow;
     description := "Payment for Invoice " +:+ Invoice.invoiceNumber invoice;
     metadata := Some {[ "invoiceId" := invoiceId ]} |}.

(** [PayFlowSDK.payInvoice] *)
Definition payInvoice (now : Z) (invoiceId payerId : string) (s : Store)
  : Store * PaymentResult :=
  match invoices s !! invoiceId with
  | None => (s, Failure "Invoice not found")
  | Some invoice =>
    if decide (Invoice.status invoice = inv_paid)
    then (s, Failure "Invoice already paid")
    else
      match companies s !! Invoice.companyId invoice with
      | None => (s, Failure "Company not found")
      | Some company =>
        match processPayment now
                (invoice_payment_data invoiceId payerId invoice company) s with
        | (s1, Success transactionId) =>
            match updateDoc_invoice invoiceId
                    (mark_invoice_paid now transactionId) s1 with
            | inr s2 => (s2, Success transactionId)
            | inl e => (s1, Failure e)
            end
        | (s1, Failure e) => (s1, Failure e)
        end
      end
  end.

(** The loop of the private [PayFlowSDK.updateProductStock]: for every
    item, read the product, check the stock, buffer the decrement. *)
Fixpoint updateProductStock_body (now : Z) (items : list OrderItem.t)
  : Tx unit :=
  match items with
  | [] => tx_ret tt
  | item :: rest =>
      let* productDoc := tx_get_product (OrderItem.productId item) in
      match productDoc with
      | None =>
          tx_throw ("Product " +:+ OrderItem.productId item +:+ " not found")
      | Some product =>
          if Product.quantity product <? OrderItem.quantity item
          then tx_throw ("Insufficient stock for " +:+ Product.name product)
          else
            tx_update_product (OrderItem.productId item)
              (Product.quantity product - OrderItem.quantity item) now ;;;
            updateProductStock_body now rest
      end
  end.

Definition updateProductStock (now : Z) (items : list OrderItem.t)
    (s : Store) : Store * StockResult :=
  match runTransaction (updateProductStock_body now items) s with
  | (s', inr _) => (s', StockOk)
  | (s', inl e) => (s', StockFailure e)
  end.

Definition order_payment_data (orderId payerId : string)
    (order : Order.t) (company : Company.t) : PaymentData :=
  {| payerId := payerId;
     receiverId := Company.ownerId company;
     companyId := Some (Order.companyId order);
     amount := Order.total order;
     type := product_purchase;
     sourceApp := stockflow;
     description := "Payment for Order " +:+ orderId;
     metadata := Some {[ "orderId" := orderId ]} |}.

(** [PayFlowSDK.payOrder] *)
Definition payOrder (now : Z) (orderId payerId : string) (s : Store)
  : Store * PaymentResult :=
  match orders s !! orderId with
  | None => (s, Failure "Order not found")
  | Some order =>
    if decide (Order.status order = ord_paid)
    then (s, Failure "Order already paid")
    else
      match companies s !! Order.companyId order with
      | None => (s, Failure "Company not found")
      | Some company =>
        match updateProductStock now (Order.items order) s with
        | (s0, StockFailure e) => (s0, Failure e)
        | (s0, StockOk) =>
          match processPayment now
                  (order_payment_data orderId payerId order company) s0 with
          | (s1, Success transactionId) =>
              match updateDoc_order orderId
                      (mark_order_paid now transactionId) s1 with
              | inr s2 => (s2, Success transactionId)
              | inl e => (s1, Failure e)
              end
          | (s1, Failure e) => (s1, Failure e)
          end
        end
      end
  end.

(** [PayFlowSDK.getUserByEmail]: the first document of the query
    [where('email', '==', email)], with its id. *)
Definition getUserByEmail (email : string) (s : Store)
  : option (string * User.t) :=
  head (filter (fun p => User.email (snd p) = email) (map_to_list (users s))).

Definition method_name (m : PaymentMethod) : string :=
  match m with momo => "momo" | bank_transfer => "bank_transfer" end.

(** [PayFlowSDK.topUpWallet]; the metadata is
    [{ paymentMethod: method, ...metadata }], where the keys of the
    argument win. *)
Definition topUp_data (userId : string) (amount : Z)
    (method : PaymentMethod) (metadata : option (gmap string string))
  : PaymentData :=
  {| payerId := userId;
     receiverId := userId;
     companyId := None;
     amount := amount;
     type := wallet_topup;
     sourceApp := payflow;
     description := "Wallet top-up via " +:+ method_name method;
     metadata :=
       Some (default ∅ metadata ∪ {[ "paymentMethod" := method_name method ]}) |}.

Definition topUpWallet (now : Z) (userId : string) (amount : Z)
    (method : PaymentMethod) (metadata : option (gmap string string))
    (s : Store) : Store * PaymentResult :=
  processPayment now (topUp_data userId amount method metadata) s.

(** [IntegrationService.transferMoney] of the PayFlow application. *)
Definition transferMoney (now : Z) (fromUserId toUserEmail : string)
    (amount : Z) (description : string) (s : Store)
  : Store * PaymentResult :=
  match getUserByEmail toUserEmail s with
  | None => (s, Failure "Recipient not found")
  | Some (toUserId, _) =>
      processPayment now
        {| payerId := fromUserId;
           receiverId := toUserId;
           companyId := None;
           amount := amount;
           type := transfer;
           sourceApp := payflow;
           description := description;
           metadata := None |}
        s
  end.

(** *** [payInvoice], one store round trip at a time

    Each [await] of [payInvoice] is one round trip to the store: the two
    [getDoc] reads, the [runTransaction] inside [processPayment], and the
    final [updateDoc].  Between two round trips of one call, other calls
    may run theirs.  A state records what the call holds in its local
    variables while it waits. *)
Inductive PayInvoiceState :=
| AwaitInvoice
| AwaitCompany (invoice : Invoice.t)
| AwaitPayment (invoice : Invoice.t) (company : Company.t)
| AwaitInvoiceUpdate (transactionId : nat)
| Returned (result : PaymentResult).

Definition payInvoice_step (now : Z) (invoiceId payerId : string)
    (st : PayInvoiceState) (s : Store) : PayInvoiceState * Store :=
  match st with
  | AwaitInvoice =>
      match invoices s !! invoiceId with
      | None => (Returned (Failure "Invoice not found"), s)
      | Some invoice =>
          if decide (Invoice.status invoice = inv_paid)
          then (Returned (Failure "Invoice already paid"), s)
          else (AwaitCompany invoice, s)
      end
  | AwaitCompany invoice =>
      match companies s !! Invoice.companyId invoice with
      | None => (Returned (Failure "Company not found"), s)
      | Some company => (AwaitPayment invoice company, s)
      end
  | AwaitPayment invoice company =>
      match processPayment now
              (invoice_payment_data invoiceId payerId invoice company) s with
      | (s1, Success transactionId) => (AwaitInvoiceUpdate transactionId, s1)
      | (s1, Failure e) => (Returned (Failure e), s1)
      end
  | AwaitInvoiceUpdate transactionId =>
      match updateDoc_invoice invoiceId
              (mark_invoice_paid now transactionId) s with
      | inr s2 => (Returned (Success transactionId), s2)
      | inl e => (Returned (Failure e), s)
      end
  | Returned result => (Returned result, s)
  end.

(** A call of [payInvoice] in flight. *)
Record Call := mkCall {
  call_invoiceId : string;
  call_payerId : string;
  call_state : PayInvoiceState
}.

Definition start_call (invoiceId payerId : string) : Call :=
  mkCall invoiceId payerId AwaitInvoice.

(** A schedule lists, round trip by round trip, the index of the call
    that performs its next one. *)
Fixpoint run_schedule (now : Z) (schedule : list nat) (calls : list Call)
    (s : Store) : list Call * Store :=
  match schedule with
  | [] => (calls, s)
  | i :: rest =>
      match calls !! i with
      | None => run_schedule now rest calls s
      | Some c =>
          let '(st, s') :=
            payInvoice_step now (call_invoiceId c) (call_payerId c)
              (call_state c) s in
          run_schedule now rest
            (<[i := mkCall (call_invoiceId c) (call_payerId c) st]> calls) s'
      end
  end.

End SDK.

(** ** Notifications and the mobile-money webhook
    ([functions/src/index.ts]) *)

(** [PayFlowSDK.sendPaymentNotification]: one notification for the payer
    of the transaction; a missing transaction is logged and ignored.  The
    message text is not modelled. *)
Definition sendPaymentNotification (now : Z) (transactionId : nat)
    (success : bool) (s : Store) : Store :=
  match transactions s !! transactionId with
  | None => s
  | Some t =>
      with_notifications s
        (notifications s ++
         [Notification.mk (Transaction.payerId t)
            (if success then "Payment Successful" else "Payment Failed")
            transactionId false now])
  end.

Definition set_transaction_status (st : TransactionStatus) (now : Z)
    (t : Transaction.t) : Transaction.t :=
  Transaction.mk (Transaction.payerId t) (Transaction.receiverId t)
    (Transaction.companyId t) (Transaction.amount t) (Transaction.type t)
    st (Transaction.description t) (Transaction.sourceApp t)
    (Transaction.metadata t) (Transaction.createdAt t) now.

(** [momoWebhook]: the query [where('metadata.momoReference', '==',
    reference).limit(1)] yields one matching record (here the first one),
    whose [status] and [updatedAt] are overwritten. *)
Definition momoWebhook (now : Z) (reference status : string) (s : Store)
  : Store :=
  match list_find
          (fun t => Transaction.metadata t !! "momoReference" = Some reference)
          (transactions s) with
  | None => s
  | Some (i, t) =>
      let successful := bool_decide (status = "SUCCESSFUL") in
      let s1 :=
        with_transactions s
          (<[i := set_transaction_status
                    (if successful then tx_completed else tx_failed) now t]>
             (transactions s)) in
      sendPaymentNotification now i successful s1
  end.

(** ** Access and validation gate: [BusinessValidation]
    ([shared/middleware/validation.ts]) *)

Inductive ValidationResult :=
| Valid
| Invalid (error : string).

Definition validatePaymentAmount (amount : Z) : ValidationResult :=
  if amount <=? 0 then Invalid "Amount must be greater than 0"
  else if 100000 <? amount
       then Invalid "Amount exceeds maximum limit of 100,000 SZL"
       else Valid.

Definition validateInvoicePayment (now : Z) (invoice : Invoice.t)
    (payerId : string) : ValidationResult :=
  if decide (Invoice.status invoice = inv_paid)
  then Invalid "Invoice is already paid"
  else if decide (Invoice.status invoice = inv_cancelled)
  then Invalid "Invoice has been cancelled"
  else if Invoice.dueDate invoice <? now
  then Invalid "Invoice is overdue"
  else Valid.

Definition validateOrderPayment (order : Order.t) (payerId : string)
  : ValidationResult :=
  if decide (Order.status order = ord_paid)
  then Invalid "Order is already paid"
  else if decide (Order.status order = ord_cancelled)
  then Invalid "Order has been cancelled"
  else if decide (Order.customerId order <> payerId)
  then Invalid "You can only pay for your own orders"
  else Valid.

(** ** Observations on a store *)

(** Sum of all wallet balances. *)
Definition total_balance (s : Store) : Z :=
  map_fold (fun _ u acc => User.walletBalance u + acc) 0 (users s).

(** Every wallet balance is non-negative. *)
Definition balances_nonneg (s : Store) : Prop :=
  map_Forall (fun _ u => 0 <= User.walletBalance u) (users s).

(** The record appended by a successful [processPayment]. *)
Definition transaction_record (now : Z) (d : PaymentData) : Transaction.t :=
  Transaction.mk (payerId d) (receiverId d) (companyId d) (amount d) (type d)
    tx_completed (description d) (sourceApp d) (default ∅ (metadata d))
    now now.

(** The [users] collection after the buffered balance updates of a
    successful [processPayment] have been applied in order: the payer's
    debit (unless the type is [wallet_topup]), then the receiver's credit,
    both computed from the documents [p] and [r] read at the start. *)
Definition debit_credit (now : Z) (d : PaymentData) (p r : User.t)
    (m : gmap string User.t) : gmap string User.t :=
  <[receiverId d :=
      set_walletBalance (User.walletBalance r + amount d) now r]>
    (if decide (type d <> wallet_topup)
     then <[payerId d :=
              set_walletBalance (User.walletBalance p - amount d) now p]> m
     else m).

Definition settled (now : Z) (d : PaymentData) (p r : User.t) (s : Store)
  : Store :=
  with_transactions (with_users s (debit_credit now d p r (users s)))
    (transactions s ++ [transaction_record now d]).

(** Completed transaction records that reference an invoice. *)
Definition completed_for_invoice (invoiceId : string) (s : Store)
  : list Transaction.t :=
  filter (fun t => Transaction.status t = tx_completed /\
                   Transaction.metadata t !! "invoiceId" = Some invoiceId)
         (transactions s).

(** ** Failure kinds of the specification

    The ledger reports a failure by its message; the specification names
    three kinds of precondition violation. *)
Inductive LedgerError := AccountNotFound | AccountInactive | InsufficientFunds.

Definition ledger_error_kind (e : string) : option LedgerError :=
  if decide (e = "Payer not found") then Some AccountNotFound
  else if decide (e = "Receiver not found") then Some AccountNotFound
  else if decide (e = "One or more users are inactive") then Some AccountInactive
  else if decide (e = "Insufficient wallet balance") then Some InsufficientFunds
  else None.

(** The precondition of kind [k] is violated by the request [d] in [s]. *)
Definition violates (s : Store) (d : PaymentData) (k : LedgerError) : Prop :=
  match k with
  | AccountNotFound =>
      users s !! payerId d = None \/ users s !! receiverId d = None
  | AccountInactive =>
      exists u, (users s !! payerId d = Some u \/
                 users s !! receiverId d = Some u) /\
                User.isActive u = false
  | InsufficientFunds =>
      type d <> wallet_topup /\
      exists u, users s !! payerId d = Some u /\
                User.walletBalance u < amount d
  end.

(** The product of a line item exists and covers the ordered quantity. *)
Definition in_stock (s : Store) (item : OrderItem.t) : Prop :=
  exists p, products s !! OrderItem.productId item = Some p /\
            OrderItem.quantity item <= Product.quantity p.

(** ** Scenarios

    A small store, in minor currency units: four accounts, one company
    owned by [bob], invoices and orders of that company. *)
Module Scenario.

Definition account (email : string) (balance : Z) : User.t :=
  User.mk email balance true 0.

Definition invoice (status : InvoiceStatus) (dueDate : Z) : Invoice.t :=
  Invoice.mk "acme" "alice@example.com" "INV-001" 11500 status dueDate
    None None 0.

Definition order (customerId : string) (items : list OrderItem.t)
    (total : Z) : Order.t :=
  Order.mk "acme" customerId "customer@example.com" items total
    ord_pending None 0.

Definition store : Store :=
  mkStore
    (<["alice" := account "alice@example.com" 100000]>
       (<["bob" := account "bob@example.com" 50000]>
          (<["carol" := account "carol@example.com" 5000]>
             (<["dave" := account "dave@example.com" 20000]> ∅))))
    (<["acme" := Company.mk "Acme" "bob"]> ∅)
    (<["inv-open" := invoice inv_sent 1000]>
       (<["inv-cancelled" := invoice inv_cancelled 1000]>
          (<["inv-expired" := invoice inv_sent 100]> ∅)))
    (<["ord-carol" := order "carol" [OrderItem.mk "widget" "Widget" 1] 5750]>
       (<["ord-big" :=
            order "alice"
              [OrderItem.mk "widget" "Widget" 2;
               OrderItem.mk "gadget" "Gadget" 5] 20000]> ∅))
    (<["widget" := Product.mk "acme" "Widget" 10 true 0]>
       (<["gadget" := Product.mk "acme" "Gadget" 1 true 0]> ∅))
    [] [].

(** The time of the calls in the scenarios. *)
Definition now : Z := 500.

End Scenario.

(** ** The public operations

    The calls that reach the ledger, and the store and result they give. *)
Inductive Operation :=
| OpProcessPayment (data : PaymentData)
| OpPayInvoice (invoiceId payerId : string)
| OpPayOrder (orderId payerId : string)
| OpTopUpWallet (userId : string) (amount : Z) (method : PaymentMethod)
    (metadata : option (gmap string string))
| OpTransferMoney (fromUserId toUserEmail : string) (amount : Z)
    (description : string).

Definition run_operation (strict : bool) (now : Z) (op : Operation)
    (s : Store) : Store * PaymentResult :=
  match op with
  | OpProcessPayment data => processPayment strict now data s
  | OpPayInvoice invoiceId payerId => payInvoice strict now invoiceId payerId s
  | OpPayOrder orderId payerId => payOrder strict now orderId payerId s
  | OpTopUpWallet userId amount method metadata =>
      topUpWallet strict now userId amount method metadata s
  | OpTransferMoney fromUserId toUserEmail amount description =>
      transferMoney strict now fromUserId toUserEmail amount description s
  end.

(** ** Sequences of transfers *)

Fixpoint run_payments (strict : bool) (now : Z) (ds : list PaymentData)
    (s : Store) : Store * list PaymentResult :=
  match ds with
  | [] => (s, [])
  | d :: rest =>
      let '(s1, r) := processPayment strict now d s in
      let '(s2, rs) := run_payments strict now rest s1 in
      (s2, r :: rs)
  end.

Definition succeeded (r : PaymentResult) : Prop :=
  match r with Success _ => True | Failure _ => False end.

(** Sum of the amounts of the [wallet_topup] requests of a sequence. *)
Definition topped_up (ds : list PaymentData) : Z :=
  foldr (fun d acc =>
           (if decide (type d = wallet_topup) then amount d else 0) + acc)
        0 ds.

(** A transfer that is not a top-up names two different accounts. *)
Definition between_two_accounts (d : PaymentData) : Prop :=
  type d <> wallet_topup -> payerId d <> receiverId d.

(** ** Further observations *)

(** Every product quantity is non-negative. *)
Definition stock_nonneg (s : Store) : Prop :=
  map_Forall (fun _ p => 0 <= Product.quantity p) (products s).

(** Two records agree on everything but [status] and [updatedAt]. *)
Definition same_payment (t t' : Transaction.t) : Prop :=
  Transaction.payerId t = Transaction.payerId t' /\
  Transaction.receiverId t = Transaction.receiverId t' /\
  Transaction.companyId t = Transaction.companyId t' /\
  Transaction.amount t = Transaction.amount t' /\
  Transaction.type t = Transaction.type t' /\
  Transaction.description t = Transaction.description t' /\
  Transaction.sourceApp t = Transaction.sourceApp t' /\
  Transaction.metadata t = Transaction.metadata t' /\
  Transaction.createdAt t = Transaction.createdAt t'.

(** No account of the store has the e-mail address. *)
Definition email_unknown (email : string) (s : Store) : Prop :=
  forall id u, users s !! id = Some u -> User.email u <> email.

(** No two accounts share an e-mail address. *)
Definition emails_unique (s : Store) : Prop :=
  forall id1 id2 u1 u2,
    users s !! id1 = Some u1 -> users s !! id2 = Some u2 ->
    User.email u1 = User.email u2 -> id1 = id2.

(** ** The rest of the validation gate

    [BusinessValidation.validateStockAvailability]: the products are
    given as a list of documents with their ids; [products.find] takes
    the first one with the id of the item.  Quantities are printed in
    decimal, as JavaScript prints integers. *)
Definition find_product (products : list (string * Product.t))
    (id : string) : option Product.t :=
  snd <$> List.find (fun p => bool_decide (fst p = id)) products.

Fixpoint validateStockAvailability (products : list (string * Product.t))
    (orderItems : list OrderItem.t) : ValidationResult :=
  match orderItems with
  | [] => Valid
  | item :: rest =>
      match find_product products (OrderItem.productId item) with
      | None =>
          Invalid ("Product " +:+ OrderItem.productId item +:+ " not found")
      | Some product =>
          if negb (Product.isActive product)
          then Invalid ("Product " +:+ Product.name product
                        +:+ " is not available")
          else if Product.quantity product <? OrderItem.quantity item
          then Invalid ("Insufficient stock for " +:+ Product.name product
                        +:+ ". Available: "
                        +:+ pretty (Product.quantity product)
                        +:+ ", Requested: "
                        +:+ pretty (OrderItem.quantity item))
          else validateStockAvailability products rest
      end
  end.

(** A line item passes the gate: its product is listed, active, and
    covers the ordered quantity. *)
Definition item_available (products : list (string * Product.t))
    (item : OrderItem.t) : Prop :=
  exists p, find_product products (OrderItem.productId item) = Some p /\
            Product.isActive p = true /\
            OrderItem.quantity item <= Product.quantity p.

(** ** Analytics: [PayFlowSDK.getCompanyAnalytics]

    The query keeps the completed records of the company, within the
    date range when both ends are given.  The average per transaction, a
    floating-point quotient, is not modelled. *)
Record CompanyAnalytics := mkCompanyAnalytics {
  totalRevenue : Z;
  totalTransactions : nat;
  invoiceRevenue : Z;
  productRevenue : Z
}.

(** [transactions.reduce((sum, t) => sum + t.amount, 0)] *)
Definition sum_amounts (l : list Transaction.t) : Z :=
  foldl (fun sum t => sum + Transaction.amount t) 0 l.

Definition analytics_query (companyId : string) (startDate endDate : option Z)
    (t : Transaction.t) : bool :=
  bool_decide (Transaction.companyId t = Some companyId)
  && bool_decide (Transaction.status t = tx_completed)
  && match startDate, endDate with
     | Some a, Some b =>
         (a <=? Transaction.createdAt t) && (Transaction.createdAt t <=? b)
     | _, _ => true
     end.

Definition getCompanyAnalytics (companyId : string)
    (startDate endDate : option Z) (s : Store) : CompanyAnalytics :=
  let transactions :=
    List.filter (analytics_query companyId startDate endDate)
      (transactions s) in
  let invoicePayments :=
    List.filter (fun t => bool_decide (Transaction.type t = invoice_payment))
      transactions in
  let productPurchases :=
    List.filter (fun t => bool_decide (Transaction.type t = product_purchase))
      transactions in
  mkCompanyAnalytics (sum_amounts transactions) (length transactions)
    (sum_amounts invoicePayments) (sum_amounts productPurchases).

(** ** Payment links and payment requests

    [process.env.PAYFLOW_BASE_URL || 'https://payflow.sz']: the
    environment value, unless it is missing or empty. *)
Definition base_url (env : option string) : string :=
  match env with
  | Some url => if decide (url = "") then "https://payflow.sz" else url
  | None => "https://payflow.sz"
  end.

(** [PayFlowSDK.createInvoicePaymentLink] *)
Definition createInvoicePaymentLink (env : option string)
    (invoiceId : string) : string :=
  base_url env +:+ "/pay/invoice/" +:+ invoiceId.

(** [PayFlowSDK.createOrderPaymentLink] *)
Definition createOrderPaymentLink (env : option string)
    (orderId : string) : string :=
  base_url env +:+ "/pay/order/" +:+ orderId.

(** Result record [{ success, paymentLink?, error? }]. *)
Inductive RequestResult :=
| RequestLink (paymentLink : string)
| RequestFailure (error : string).

(** [InvoiceFlowSDK.requestPayment] *)
Definition InvoiceFlowSDK_requestPayment (env : option string)
    (invoiceId payerEmail : string) (s : Store) : RequestResult :=
  match getUserByEmail payerEmail s with
  | None => RequestFailure "Customer not found in PayFlow system"
  | Some _ => RequestLink (createInvoicePaymentLink env invoiceId)
  end.

(** [StockFlowSDK.requestPayment] *)
Definition StockFlowSDK_requestPayment (env : option string)
    (orderId payerEmail : string) (s : Store) : RequestResult :=
  match getUserByEmail payerEmail s with
  | None => RequestFailure "Customer not found in PayFlow system"
  | Some _ => RequestLink (createOrderPaymentLink env orderId)
  end.

(** ** Cross-app integration: [IntegrationService]
    ([shared/services/integrationService.ts]) *)

(** Result record [{ success, transactionId?, paymentLink?, error? }]. *)
Record IntegrationResult := mkIntegrationResult {
  int_success : bool;
  int_transactionId : option nat;
  int_paymentLink : option string;
  int_error : option string
}.

Definition integration_result (r : PaymentResult) : IntegrationResult :=
  match r with
  | Success transactionId =>
      mkIntegrationResult true (Some transactionId) None None
  | Failure e => mkIntegrationResult false None None (Some e)
  end.

(** [IntegrationService.processInvoicePayment] *)
Definition processInvoicePayment (env : option string) (strict : bool)
    (now : Z) (invoiceId payerEmail : string) (s : Store)
  : Store * IntegrationResult :=
  match getUserByEmail payerEmail s with
  | None =>
      (s, mkIntegrationResult false None
            (Some (createInvoicePaymentLink env invoiceId))
            (Some "Customer needs to register in PayFlow first"))
  | Some (payerId, _) =>
      match payInvoice strict now invoiceId payerId s with
      | (s1, Success transactionId) =>
          (sendPaymentNotification now transactionId true s1,
           integration_result (Success transactionId))
      | (s1, Failure e) => (s1, integration_result (Failure e))
      end
  end.

(** [IntegrationService.processOrderPayment] *)
Definition processOrderPayment (env : option string) (strict : bool)
    (now : Z) (orderId payerEmail : string) (s : Store)
  : Store * IntegrationResult :=
  match getUserByEmail payerEmail s with
  | None =>
      (s, mkIntegrationResult false None
            (Some (createOrderPaymentLink env orderId))
            (Some "Customer needs to register in PayFlow first"))
  | Some (payerId, _) =>
      match payOrder strict now orderId payerId s with
      | (s1, Success transactionId) =>
          (sendPaymentNotification now transactionId true s1,
           integration_result (Success transactionId))
      | (s1, Failure e) => (s1, integration_result (Failure e))
      end
  end.

(** ** Cloud functions ([functions/src/index.ts])

    A callable function either throws an error message or returns the
    result of the SDK.  [auth] is the id of the authenticated caller, when
    there is one. *)
Module Functions.

(** The [data] of a [processPayment] call: the fields of the payment and,
    possibly, a [payerId] of its own. *)
Record PaymentCallData := mkPaymentCallData {
  data_payerId : option string;
  data_receiverId : string;
  data_companyId : option string;
  data_amount : Z;
  data_type : TransactionType;
  data_sourceApp : SourceApp;
  data_description : string;
  data_metadata : option (gmap string string)
}.

(** [{ payerId: authContext.uid, ...data }]: the keys of [data] win. *)
Definition payment_of_call (uid : string) (data : PaymentCallData)
  : PaymentData :=
  {| payerId := default uid (data_payerId data);
     receiverId := data_receiverId data;
     companyId := data_companyId data;
     amount := data_amount data;
     type := data_type data;
     sourceApp := data_sourceApp data;
     description := data_description data;
     metadata := data_metadata data |}.

Definition processPayment (strict : bool) (now : Z) (auth : option string)
    (data : PaymentCallData) (s : Store)
  : Store * (string + PaymentResult) :=
  match auth with
  | None => (s, inl "Authentication required")
  | Some uid =>
      match users s !! uid with
      | None => (s, inl "User not found")
      | Some userData =>
          if negb (User.isActive userData)
          then (s, inl "Account is deactivated")
          else
            let '(s', result) :=
              processPayment strict now (payment_of_call uid data) s in
            (s', inr result)
      end
  end.

Definition processInvoicePayment (strict : bool) (now : Z)
    (auth : option string) (invoiceId : string) (s : Store)
  : Store * (string + PaymentResult) :=
  match auth with
  | None => (s, inl "Authentication required")
  | Some uid =>
      let '(s', result) := payInvoice strict now invoiceId uid s in
      (s', inr result)
  end.

Definition processOrderPayment (strict : bool) (now : Z)
    (auth : option string) (orderId : string) (s : Store)
  : Store * (string + PaymentResult) :=
  match auth with
  | None => (s, inl "Authentication required")
  | Some uid =>
      let '(s', result) := payOrder strict now orderId uid s in
      (s', inr result)
  end.

(** The test [/^(\+268|268|0)?[67]\d{7}$/] of [processMoMoPayment]: an
    optional prefix, a 6 or a 7 (character codes 54 and 55), seven more
    digits (codes 48 to 57), and nothing else. *)
Definition is_digit (c : Ascii.ascii) : bool :=
  (48 <=? Ascii.nat_of_ascii c)%nat && (Ascii.nat_of_ascii c <=? 57)%nat.

Fixpoint strip_prefix (p s : string) : option string :=
  match p with
  | String.EmptyString => Some s
  | String.String a p' =>
      match s with
      | String.String b s' =>
          if decide (a = b) then strip_prefix p' s' else None
      | String.EmptyString => None
      end
  end.

Definition local_number (s : string) : bool :=
  match s with
  | String.String c rest =>
      ((Ascii.nat_of_ascii c =? 54)%nat || (Ascii.nat_of_ascii c =? 55)%nat)
      && bool_decide (String.length rest = 7%nat)
      && forallb is_digit (String.list_ascii_of_string rest)
  | String.EmptyString => false
  end.

Definition phone_prefixes : list string := ["+268"; "268"; "0"; ""].

Definition valid_phone (phoneNumber : string) : bool :=
  existsb (fun p => match strip_prefix p phoneNumber with
                    | Some rest => local_number rest
                    | None => false
                    end)
          phone_prefixes.

(** The HTTP answer [res.status(code).json({ success, transactionId?,
    momoReference?, error? })]. *)
Record MoMoResponse := mkMoMoResponse {
  http_status : Z;
  momo_success : bool;
  momo_transactionId : option nat;
  momo_reference : option string;
  momo_error : option string
}.

Definition momo_refused (code : Z) (error : string) : MoMoResponse :=
  mkMoMoResponse code false None None (Some error).

(** [x || fallback] on an optional, possibly empty, message. *)
Definition or_message (e fallback : string) : string :=
  if decide (e = "") then fallback else e.

(** [processMoMoPayment].  The fields of the body may be missing; a
    missing or empty text and a missing or zero amount are falsy.
    [transactionRef] is the generated reference and [momoAccepted] the
    answer of the mobile-money service. *)
Definition processMoMoPayment (strict : bool) (now : Z)
    (phoneNumber : option string) (amount : option Z)
    (userId : option string) (transactionRef : string)
    (momoAccepted : bool) (s : Store) : Store * MoMoResponse :=
  match phoneNumber, amount, userId with
  | Some phone, Some amt, Some uid =>
      if bool_decide (phone = "") || bool_decide (amt = 0)
         || bool_decide (uid = "")
      then (s, momo_refused 400 "Missing required fields")
      else if negb (valid_phone phone)
      then (s, momo_refused 400 "Invalid Eswatini phone number format")
      else if negb momoAccepted
      then (s, momo_refused 400 "Payment declined by MoMo service")
      else
        match topUpWallet strict now uid amt momo
                (Some (<["phoneNumber" := phone]>
                         (<["momoReference" := transactionRef]> ∅))) s with
        | (s', Success transactionId) =>
            (s', mkMoMoResponse 200 true (Some transactionId)
                   (Some transactionRef) None)
        | (s', Failure e) =>
            (s', momo_refused 400 (or_message e "Wallet top-up failed"))
        end
  | _, _, _ => (s, momo_refused 400 "Missing required fields")
  end.

End Functions.

(** * Properties *)

(** ** The ledger engine, case by case *)

Lemma alter_as_insert {A} (f : A -> A) (k : string) (x : A)
    (m : gmap string A) :
  m !! k = Some x -> alter f k m = <[k := f x]> m.
Proof.
  intros Hk. apply map_eq. intros j.
  destruct (decide (k = j)) as [->|Hne].
  - rewrite lookup_alter_eq, lookup_insert_eq, Hk. reflexivity.
  - rewrite lookup_alter_ne, lookup_insert_ne by done. reflexivity.
Qed.

Lemma processPayment_eq strict now d s :
  processPayment strict now d s =
  match users s !! payerId d with
  | None => (s, Failure "Payer not found")
  | Some p =>
    match users s !! receiverId d with
    | None => (s, Failure "Receiver not found")
    | Some r =>
      if negb (User.isActive p) || negb (User.isActive r)
      then (s, Failure "One or more users are inactive")
      else if decide (type d <> wallet_topup)
      then if User.walletBalance p <? amount d
           then (s, Failure "Insufficient wallet balance")
           else (settled now d p r s, Success (length (transactions s)))
      else (settled now d p r s, Success (length (transactions s)))
    end
  end.
Proof.
  unfold processPayment, runTransaction, processPayment_body, tx_bind,
    tx_get_user, tx_read, tx_throw.
  destruct (users s !! payerId d) as [p|] eqn:Hp;
    destruct (users s !! receiverId d) as [r|] eqn:Hr; try reflexivity.
  destruct (negb (User.isActive p) || negb (User.isActive r)); [reflexivity|].
  unfold settled, debit_credit.
  destruct (decide (type d <> wallet_topup)) as [Hty|Hty].
  - destruct (User.walletBalance p <? amount d); [reflexivity|].
    unfold tx_update_user, tx_new_transaction_ref, tx_set_transaction, tx_ret.
    rewrite Hp, Hr. cbn.
    rewrite (alter_as_insert _ _ p) by done.
    destruct (decide (payerId d = receiverId d)) as [Heq|Hne].
    + assert (r = p) as -> by congruence.
      rewrite (alter_as_insert _ _
                 (set_walletBalance (User.walletBalance p - amount d) now p))
        by (rewrite Heq; apply lookup_insert_eq).
      reflexivity.
    + rewrite (alter_as_insert _ _ r)
        by (rewrite lookup_insert_ne; done).
      reflexivity.
  - unfold tx_update_user, tx_new_transaction_ref, tx_set_transaction, tx_ret.
    rewrite Hr. cbn.
    rewrite (alter_as_insert _ _ r) by done.
    reflexivity.
Qed.

(** A failed transfer never touches the store. *)
Lemma processPayment_failure_unchanged strict now d s s' e :
  processPayment strict now d s = (s', Failure e) -> s' = s.
Proof.
  rewrite processPayment_eq.
  repeat (case_match; try discriminate); congruence.
Qed.

(** A successful transfer is exactly [settled], built from the two
    account documents as they were before the call. *)
Lemma processPayment_success strict now d s s' id :
  processPayment strict now d s = (s', Success id) ->
  exists p r,
    users s !! payerId d = Some p /\ users s !! receiverId d = Some r /\
    User.isActive p = true /\ User.isActive r = true /\
    (type d <> wallet_topup -> amount d <= User.walletBalance p) /\
    s' = settled now d p r s /\ id = length (transactions s).
Proof.
  rewrite processPayment_eq.
  destruct (users s !! payerId d) as [p|]; [|discriminate].
  destruct (users s !! receiverId d) as [r|]; [|discriminate].
  destruct (User.isActive p) eqn:Hp, (User.isActive r) eqn:Hr;
    cbn; try discriminate.
  destruct (decide (type d <> wallet_topup)) as [Hty|Hty].
  - destruct (User.walletBalance p <? amount d) eqn:Hlt; [discriminate|].
    apply Z.ltb_ge in Hlt. intros [= <- <-].
    exists p, r. repeat split; auto.
  - intros [= <- <-]. exists p, r. repeat split; auto. intros; contradiction.
Qed.

(** *** Sums of balances under a single document update *)

Lemma balance_sum_insert (m : gmap string User.t) k x y :
  m !! k = Some x ->
  map_fold (fun _ u acc => User.walletBalance u + acc) 0 (<[k := y]> m) =
  map_fold (fun _ u acc => User.walletBalance u + acc) 0 m
  - User.walletBalance x + User.walletBalance y.
Proof.
  intros Hk.
  rewrite (map_fold_delete_L _ 0 k x m) by (intros; lia || done).
  rewrite <- (insert_delete_eq m k y).
  rewrite map_fold_insert_L; [lia | intros; lia | apply lookup_delete_eq].
Qed.

Lemma total_balance_settled now d p r s :
  users s !! payerId d = Some p ->
  users s !! receiverId d = Some r ->
  total_balance (settled now d p r s) =
  if decide (type d <> wallet_topup /\ payerId d <> receiverId d)
  then total_balance s
  else total_balance s + amount d.
Proof.
  intros Hp Hr. unfold total_balance, settled, debit_credit. cbn.
  destruct (decide (type d <> wallet_topup)) as [Hty|Hty].
  - destruct (decide (payerId d = receiverId d)) as [Heq|Hne].
    + assert (r = p) as -> by congruence.
      rewrite decide_False by tauto.
      rewrite Heq, insert_insert_eq.
      rewrite (balance_sum_insert _ _ p) by done. cbn. lia.
    + rewrite decide_True by tauto.
      rewrite (balance_sum_insert _ _ r) by (rewrite lookup_insert_ne; done).
      rewrite (balance_sum_insert _ _ p) by done. cbn. lia.
  - rewrite decide_False by tauto.
    rewrite (balance_sum_insert _ _ r) by done. cbn. lia.
Qed.

(** Conservation where it does hold: a successful transfer between two
    different accounts keeps the sum of balances, and a successful
    [wallet_topup] adds exactly its amount. *)
Lemma processPayment_total_balance strict now d s s' id :
  processPayment strict now d s = (s', Success id) ->
  total_balance s' =
  if decide (type d <> wallet_topup /\ payerId d <> receiverId d)
  then total_balance s
  else total_balance s + amount d.
Proof.
  intros H. apply processPayment_success in H
    as (p & r & Hp & Hr & _ & _ & _ & -> & _).
  by apply total_balance_settled.
Qed.

(** Non-negativity where it does hold: with a non-negative amount a
    transfer keeps every balance non-negative. *)
Lemma processPayment_balances_nonneg strict now d s s' res :
  0 <= amount d ->
  balances_nonneg s ->
  processPayment strict now d s = (s', res) ->
  balances_nonneg s'.
Proof.
  intros Hamt Hinv H. destruct res as [id|e].
  - apply processPayment_success in H
      as (p & r & Hp & Hr & _ & _ & Hbal & -> & _).
    pose proof (Hinv _ _ Hp) as Hp0. pose proof (Hinv _ _ Hr) as Hr0.
    cbn beta in Hp0, Hr0.
    intros k u. unfold settled, debit_credit. cbn.
    rewrite lookup_insert. case_decide.
    + intros [= <-]. cbn. lia.
    + destruct (decide (type d <> wallet_topup)) as [Hty|Hty].
      * rewrite lookup_insert. case_decide.
        -- intros [= <-]. cbn. specialize (Hbal Hty). lia.
        -- apply Hinv.
      * apply Hinv.
  - apply processPayment_failure_unchanged in H. by subst.
Qed.

(** The transfer succeeds when no precondition is violated. *)
Lemma processPayment_succeeds strict now d s p r :
  users s !! payerId d = Some p ->
  users s !! receiverId d = Some r ->
  User.isActive p = true ->
  User.isActive r = true ->
  (type d <> wallet_topup -> amount d <= User.walletBalance p) ->
  processPayment strict now d s
    = (settled now d p r s, Success (length (transactions s))).
Proof.
  intros Hp Hr Hap Har Hbal. rewrite processPayment_eq, Hp, Hr, Hap, Har.
  cbn [negb orb]. case_decide as Hty; [|reflexivity].
  apply Hbal, Z.ltb_ge in Hty. by rewrite Hty.
Qed.


(** X3. Over any sequence of transfers with non-negative amounts,
    successful or not, balances stay non-negative. *)
Lemma run_payments_balances_nonneg strict now ds s s' rs :
  Forall (fun d => 0 <= amount d) ds ->
  balances_nonneg s ->
  run_payments strict now ds s = (s', rs) ->
  balances_nonneg s'.
Proof.
  intros Hds. revert s s' rs.
  induction Hds as [|d ds Hd Hds IH]; intros s s' rs Hinv.
  { cbn. by intros [= <- _]. }
  cbn [run_payments].
  destruct (processPayment strict now d s) as [s1 r] eqn:Hpay.
  destruct (run_payments strict now ds s1) as [s2 rs'] eqn:Hrest.
  intros [= <- _].
  eapply IH; [|exact Hrest].
  eapply processPayment_balances_nonneg; eauto.
Qed.

(** ** Claims about the ledger engine *)

(** C3. Whenever a precondition of the ledger transfer is violated (an
    account is missing, an account is inactive, or, for a type other than
    [wallet_topup], the payer's balance is below the amount),
    [processPayment] returns a failure whose message names a violated
    precondition, and the store it returns is the store it was given: no
    account document changes and no transaction record is inserted. *)
Theorem processPayment_violation_aborts strict now d s k :
  violates s d k ->
  exists e k',
    processPayment strict now d s = (s, Failure e) /\
    ledger_error_kind e = Some k' /\
    violates s d k'.
Proof.
  intros Hv. rewrite processPayment_eq.
  destruct (users s !! payerId d) as [p|] eqn:Hp.
  2:{ exists "Payer not found", AccountNotFound. cbn. auto. }
  destruct (users s !! receiverId d) as [r|] eqn:Hr.
  2:{ exists "Receiver not found", AccountNotFound. cbn. auto. }
  destruct (User.isActive p) eqn:Hap.
  2:{ exists "One or more users are inactive", AccountInactive.
      cbn. repeat split; auto. exists p. auto. }
  destruct (User.isActive r) eqn:Har.
  2:{ exists "One or more users are inactive", AccountInactive.
      cbn. repeat split; auto. exists r. auto. }
  cbn [negb orb].
  destruct (decide (type d <> wallet_topup)) as [Hty|Hty].
  - destruct (User.walletBalance p <? amount d) eqn:Hlt.
    { exists "Insufficient wallet balance", InsufficientFunds.
      apply Z.ltb_lt in Hlt. cbn. repeat split; auto. exists p. auto. }
    exfalso. apply Z.ltb_ge in Hlt.
    destruct k; cbn in Hv.
    + destruct Hv; congruence.
    + destruct Hv as (u & [Hu|Hu] & Hi); congruence.
    + destruct Hv as (_ & u & Hu & Hb).
      assert (u = p) as -> by congruence. lia.
  - exfalso. destruct k; cbn in Hv.
    + destruct Hv; congruence.
    + destruct Hv as (u & [Hu|Hu] & Hi); congruence.
    + tauto.
Qed.

Lemma processPayment_violation_aborts_witness :
  let d := mkPaymentData "carol" "bob" None 5750 product_purchase stockflow
             "Payment for Order ord-carol" None in
  violates Scenario.store d InsufficientFunds /\
  exists e k',
    processPayment true Scenario.now d Scenario.store
      = (Scenario.store, Failure e) /\
    ledger_error_kind e = Some k' /\
    violates Scenario.store d k'.
Proof.
  intros d.
  assert (Hv : violates Scenario.store d InsufficientFunds).
  { split; [discriminate|].
    exists (Scenario.account "carol@example.com" 5000).
    split; [vm_compute; reflexivity | cbn; lia]. }
  split; [exact Hv|].
  exact (processPayment_violation_aborts true Scenario.now d
           Scenario.store InsufficientFunds Hv).
Defined.






(** ** Claims about order settlement *)

Lemma tx_read_cases {A} strict (f : Store -> option A) snap ws :
  tx_read strict f snap ws = inl reads_before_writes_error \/
  tx_read strict f snap ws = inr (f snap, ws).
Proof. unfold tx_read. destruct ws, strict; auto. Qed.

Lemma tx_read_permitted {A} strict (f : Store -> option A) snap ws :
  strict = false \/ ws = [] ->
  tx_read strict f snap ws = inr (f snap, ws).
Proof. unfold tx_read. intros [->| ->]; [destruct ws|]; reflexivity. Qed.

(** The stock transaction raises as soon as the item list holds one item
    that exceeds the stock of its product, whatever was buffered before. *)
Lemma updateProductStock_body_raises strict now items snap ws item p :
  item ∈ items ->
  products snap !! OrderItem.productId item = Some p ->
  Product.quantity p < OrderItem.quantity item ->
  exists e, updateProductStock_body strict now items snap ws = inl e.
Proof.
  intros Hin Hp Hlt. revert ws.
  induction items as [|it rest IH]; intros ws.
  { by apply elem_of_nil in Hin. }
  cbn [updateProductStock_body]. unfold tx_bind at 1, tx_get_product.
  destruct (tx_read_cases strict
              (fun snap => products snap !! OrderItem.productId it) snap ws)
    as [-> | ->]; [eauto|].
  destruct (products snap !! OrderItem.productId it) as [q|] eqn:Hq;
    [|unfold tx_throw; eauto].
  destruct (Product.quantity q <? OrderItem.quantity it) eqn:Hcmp;
    [unfold tx_throw; eauto|].
  unfold tx_bind, tx_update_product. rewrite Hq.
  apply elem_of_cons in Hin as [-> | Hin].
  - apply Z.ltb_ge in Hcmp. assert (q = p) as -> by congruence. lia.
  - apply (IH Hin).
Qed.

(** When the items before the first offending one are all in stock, and
    the store serves the read of the offending item, the error is the
    stock error for its product. *)
Lemma updateProductStock_body_stock_error strict now pre item post snap ws p :
  Forall (in_stock snap) pre ->
  products snap !! OrderItem.productId item = Some p ->
  Product.quantity p < OrderItem.quantity item ->
  strict = false \/ (pre = [] /\ ws = []) ->
  updateProductStock_body strict now (pre ++ item :: post) snap ws
    = inl ("Insufficient stock for " +:+ Product.name p).
Proof.
  intros Hpre Hp Hlt. revert ws.
  induction Hpre as [|it pre (q & Hq & Hle) Hpre IH]; intros ws Hpol.
  - cbn [app updateProductStock_body]. unfold tx_bind, tx_get_product.
    rewrite tx_read_permitted by tauto.
    rewrite Hp. apply Z.ltb_lt in Hlt. rewrite Hlt. reflexivity.
  - destruct Hpol as [-> | [? _]]; [|discriminate].
    cbn [app updateProductStock_body]. unfold tx_bind at 1, tx_get_product.
    rewrite tx_read_permitted by tauto.
    rewrite Hq.
    apply Z.ltb_ge in Hle. rewrite Hle.
    unfold tx_bind, tx_update_product. rewrite Hq.
    apply IH. auto.
Qed.



(** The stock transaction commits before the transfer is attempted, and
    a failed transfer returns the store as the stock transaction left it. *)
Lemma payOrder_failed_transfer_store
    strict now orderId payerId s order company s0 s1 e :
  orders s !! orderId = Some order ->
  Order.status order <> ord_paid ->
  companies s !! Order.companyId order = Some company ->
  updateProductStock strict now (Order.items order) s = (s0, StockOk) ->
  processPayment strict now
    (order_payment_data orderId payerId order company) s0 = (s1, Failure e) ->
  payOrder strict now orderId payerId s = (s0, Failure e).
Proof.
  intros Ho Hst Hc Hstock Hpay. unfold payOrder.
  rewrite Ho, decide_False, Hc, Hstock, Hpay by done.
  by rewrite (processPayment_failure_unchanged _ _ _ _ _ _ Hpay).
Qed.

(** C5. A failed transfer does not undo the stock decrement: the stock
    transaction of [payOrder] commits first and nothing restores it.
    [carol], with balance 5000, pays her order of one Widget with total
    5750: the call fails for lack of funds, no balance and no order
    changes, but the Widget stock has gone from 10 to 9. *)
Theorem payOrder_failed_transfer_keeps_decrement strict :
  let s := Scenario.store in
  let r := payOrder strict Scenario.now "ord-carol" "carol" s in
  snd r = Failure "Insufficient wallet balance" /\
  users (fst r) = users s /\
  orders (fst r) = orders s /\
  transactions (fst r) = transactions s /\
  Product.quantity <$> products s !! "widget" = Some 10 /\
  Product.quantity <$> products (fst r) !! "widget" = Some 9.
Proof. destruct strict; vm_compute; auto 10. Qed.

(** C10. [payOrder] does not compare the payer with the customer of the
    order.  The order of [carol] is paid by [alice]: the ownership check
    of the validation gate rejects the pair, yet the call succeeds,
    [alice] is debited 5750, [bob] (the owner of the company) is credited,
    the stock is decremented and the order is marked paid.  Invoices, as
    specified, are payable by any account: [dave] pays the invoice
    addressed to [alice]. *)
Theorem payOrder_accepts_foreign_payer strict :
  let s := Scenario.store in
  let r := payOrder strict Scenario.now "ord-carol" "alice" s in
  let r' := payInvoice strict Scenario.now "inv-open" "dave" s in
  Order.customerId <$> orders s !! "ord-carol" = Some "carol" /\
  (fun o => validateOrderPayment o "alice") <$> orders s !! "ord-carol"
    = Some (Invalid "You can only pay for your own orders") /\
  snd r = Success 0 /\
  User.walletBalance <$> users (fst r) !! "alice" = Some 94250 /\
  User.walletBalance <$> users (fst r) !! "bob" = Some 55750 /\
  Product.quantity <$> products (fst r) !! "widget" = Some 9 /\
  Order.status <$> orders (fst r) !! "ord-carol" = Some ord_paid /\
  snd r' = Success 0 /\
  Invoice.status <$> invoices (fst r') !! "inv-open" = Some inv_paid.
Proof. destruct strict; vm_compute; auto 12. Qed.

(** ** Claims about invoice settlement *)

(** What [payInvoice] does reject: a paid invoice, before any transfer
    and without touching the store. *)
Lemma payInvoice_paid_rejected strict now invoiceId payerId s invoice :
  invoices s !! invoiceId = Some invoice ->
  Invoice.status invoice = inv_paid ->
  payInvoice strict now invoiceId payerId s
    = (s, Failure "Invoice already paid").
Proof.
  intros Hi Hst. unfold payInvoice. by rewrite Hi, decide_True.
Qed.

(** C7. [payInvoice] rejects only paid invoices.  At time 500, [alice]
    pays a cancelled invoice, and an invoice that was due at time 100:
    the checks of the validation gate reject both, yet both calls
    succeed, move 11500 from [alice] to [bob] and mark the invoice
    paid. *)
Theorem payInvoice_settles_cancelled_and_expired strict :
  let s := Scenario.store in
  let now := Scenario.now in
  let rc := payInvoice strict now "inv-cancelled" "alice" s in
  let re := payInvoice strict now "inv-expired" "alice" s in
  (Invoice.status <$> invoices s !! "inv-cancelled" = Some inv_cancelled /\
   (fun i => validateInvoicePayment now i "alice")
     <$> invoices s !! "inv-cancelled"
     = Some (Invalid "Invoice has been cancelled") /\
   snd rc = Success 0 /\
   User.walletBalance <$> users (fst rc) !! "alice" = Some 88500 /\
   User.walletBalance <$> users (fst rc) !! "bob" = Some 61500 /\
   Invoice.status <$> invoices (fst rc) !! "inv-cancelled" = Some inv_paid) /\
  (Invoice.dueDate <$> invoices s !! "inv-expired" = Some 100 /\
   (fun i => validateInvoicePayment now i "alice")
     <$> invoices s !! "inv-expired"
     = Some (Invalid "Invoice is overdue") /\
   snd re = Success 0 /\
   User.walletBalance <$> users (fst re) !! "alice" = Some 88500 /\
   User.walletBalance <$> users (fst re) !! "bob" = Some 61500 /\
   Invoice.status <$> invoices (fst re) !! "inv-expired" = Some inv_paid).
Proof. destruct strict; vm_compute; auto 12. Qed.

(** X6. Two calls for one invoice, one after the other: the second finds
    the invoice paid and is rejected without touching the store. *)
Lemma payInvoice_second_call_rejected
    strict now now' invoiceId payerId payerId' s s' id :
  payInvoice strict now invoiceId payerId s = (s', Success id) ->
  payInvoice strict now' invoiceId payerId' s'
    = (s', Failure "Invoice already paid").
Proof.
  unfold payInvoice at 1.
  destruct (invoices s !! invoiceId) as [inv|]; [|discriminate].
  destruct (decide (Invoice.status inv = inv_paid)); [discriminate|].
  destruct (companies s !! Invoice.companyId inv) as [c|]; [|discriminate].
  destruct (processPayment _ _ _ s) as [s1 [tid|e]]; [|discriminate].
  unfold updateDoc_invoice.
  destruct (invoices s1 !! invoiceId) as [inv1|]; [|discriminate].
  intros [= <- <-].
  apply (payInvoice_paid_rejected _ _ _ _ _ (mark_invoice_paid now tid inv1)).
  - cbn. apply lookup_insert_eq.
  - reflexivity.
Qed.

(** A call whose four round trips run without any other call in between
    is [payInvoice]. *)
Lemma run_schedule_alone strict now invoiceId payerId s :
  run_schedule strict now [0; 0; 0; 0]%nat [start_call invoiceId payerId] s
  = ([mkCall invoiceId payerId
        (Returned (snd (payInvoice strict now invoiceId payerId s)))],
     fst (payInvoice strict now invoiceId payerId s)).
Proof.
  unfold payInvoice. cbn.
  destruct (invoices s !! invoiceId) as [inv|]; [|reflexivity].
  destruct (decide (Invoice.status inv = inv_paid)); [reflexivity|]. cbn.
  destruct (companies s !! Invoice.companyId inv) as [c|]; [|reflexivity].
  cbn.
  destruct (processPayment _ _ _ s) as [s1 [tid|e]]; [|reflexivity]. cbn.
  destruct (updateDoc_invoice invoiceId _ s1); reflexivity.
Qed.

(** C4. The status check of [payInvoice] and its transfer are separate
    round trips, so two calls for one unpaid invoice can both pass the
    check before either pays.  [alice] and [dave] pay the same invoice of
    11500 with their round trips alternating: both calls return success,
    both are debited, [bob] is credited twice, and two completed records
    reference the invoice. *)
Theorem concurrent_payInvoice_settles_twice strict :
  let s := Scenario.store in
  let calls := [start_call "inv-open" "alice"; start_call "inv-open" "dave"] in
  let r := run_schedule strict Scenario.now [0; 1; 0; 1; 0; 1; 0; 1]%nat
             calls s in
  Invoice.status <$> invoices s !! "inv-open" = Some inv_sent /\
  call_state <$> fst r = [Returned (Success 0); Returned (Success 1)] /\
  length (completed_for_invoice "inv-open" (snd r)) = 2%nat /\
  User.walletBalance <$> users (snd r) !! "alice" = Some 88500 /\
  User.walletBalance <$> users (snd r) !! "dave" = Some 8500 /\
  User.walletBalance <$> users (snd r) !! "bob" = Some 73000.
Proof. destruct strict; vm_compute; auto 10. Qed.

(** ** Claims about transaction records *)

Lemma commit_snoc s ws w : commit s (ws ++ [w]) = apply_write (commit s ws) w.
Proof. unfold commit. by rewrite foldl_app. Qed.

Lemma with_products_id s : with_products s (products s) = s.
Proof. by destruct s. Qed.

(** The stock transaction writes product documents only. *)
Lemma updateProductStock_body_products strict now items s ws ws' :
  updateProductStock_body strict now items s ws = inr (tt, ws') ->
  exists m, commit s ws' = with_products (commit s ws) m.
Proof.
  revert ws. induction items as [|it rest IH]; intros ws.
  { cbn. intros [= <-]. exists (products (commit s ws)).
    by rewrite with_products_id. }
  cbn [updateProductStock_body]. unfold tx_bind at 1, tx_get_product.
  destruct (tx_read_cases strict
              (fun snap => products snap !! OrderItem.productId it) s ws)
    as [-> | ->]; [discriminate|].
  destruct (products s !! OrderItem.productId it) as [q|] eqn:Hq;
    [|discriminate].
  destruct (Product.quantity q <? OrderItem.quantity it); [discriminate|].
  unfold tx_bind, tx_update_product. rewrite Hq.
  intros H. apply IH in H as [m Hm].
  exists m. rewrite Hm, commit_snoc. reflexivity.
Qed.

Lemma updateProductStock_products strict now items s s' res :
  updateProductStock strict now items s = (s', res) ->
  exists m, s' = with_products s m.
Proof.
  unfold updateProductStock, runTransaction.
  destruct (updateProductStock_body strict now items s []) as [e|[[] ws]] eqn:Hb.
  - intros [= <- _]. exists (products s). by rewrite with_products_id.
  - intros [= <- _]. apply updateProductStock_body_products in Hb as [m Hm].
    exists m. exact Hm.
Qed.

(** A transfer leaves the records it found in place and appends at most
    one. *)
Lemma processPayment_appends strict now d s s' res :
  processPayment strict now d s = (s', res) ->
  exists l, transactions s' = transactions s ++ l.
Proof.
  destruct res as [id|e]; intros H.
  - apply processPayment_success in H as (p & r & _ & _ & _ & _ & _ & -> & _).
    by exists [transaction_record now d].
  - apply processPayment_failure_unchanged in H as ->.
    exists []. by rewrite app_nil_r.
Qed.



(** * Further properties *)

(** ** The ledger *)




Lemma run_payments_balances_nonneg_witness :
  let ds := [mkPaymentData "carol" "bob" None 5750 transfer payflow
               "too much" None;
             mkPaymentData "alice" "bob" None 2500 transfer payflow
               "lunch" None] in
  balances_nonneg (fst (run_payments true Scenario.now ds Scenario.store)).
Proof.
  intros ds.
  apply (run_payments_balances_nonneg true Scenario.now ds Scenario.store _
           (snd (run_payments true Scenario.now ds Scenario.store))).
  - repeat constructor; cbn; lia.
  - apply (bool_decide_unpack _). vm_compute. exact I.
  - vm_compute. reflexivity.
Defined.

(** ** Invoice settlement *)



(** X5. A failed [payInvoice] leaves the whole store as it was: whatever
    the reason of the failure, no balance, invoice or record changes. *)
Theorem payInvoice_failure_unchanged strict now invoiceId payerId s s' e :
  payInvoice strict now invoiceId payerId s = (s', Failure e) -> s' = s.
Proof.
  unfold payInvoice.
  destruct (invoices s !! invoiceId) as [inv|] eqn:Hi; [|congruence].
  destruct (decide (Invoice.status inv = inv_paid)); [congruence|].
  destruct (companies s !! Invoice.companyId inv) as [c|]; [|congruence].
  destruct (processPayment _ _ _ s) as [s1 [tid|e1]] eqn:Hpay.
  - apply processPayment_success in Hpay
      as (p & r & _ & _ & _ & _ & _ & -> & _).
    unfold updateDoc_invoice. cbn. rewrite Hi. discriminate.
  - apply processPayment_failure_unchanged in Hpay as ->. congruence.
Qed.

Lemma payInvoice_failure_unchanged_witness :
  fst (payInvoice true Scenario.now "inv-open" "carol" Scenario.store)
  = Scenario.store.
Proof.
  apply (payInvoice_failure_unchanged true Scenario.now "inv-open" "carol"
           Scenario.store _ "Insufficient wallet balance").
  vm_compute. reflexivity.
Defined.

Lemma payInvoice_second_call_rejected_witness :
  let r := payInvoice true Scenario.now "inv-open" "alice" Scenario.store in
  payInvoice true 600 "inv-open" "dave" (fst r)
  = (fst r, Failure "Invoice already paid").
Proof.
  intros r.
  apply (payInvoice_second_call_rejected true Scenario.now 600 "inv-open"
           "alice" "dave" Scenario.store (fst r) 0%nat).
  vm_compute. reflexivity.
Defined.

(** ** Order settlement and stock *)

(** X7. A failed [payOrder] changes nothing but, possibly, product
    documents: balances, orders, invoices, companies, records and
    notifications are as before. *)
Theorem payOrder_failure_keeps_ledger strict now orderId payerId s s' e :
  payOrder strict now orderId payerId s = (s', Failure e) ->
  exists m, s' = with_products s m.
Proof.
  assert (Hid : exists m, s = with_products s m)
    by (exists (products s); by rewrite with_products_id).
  unfold payOrder.
  destruct (orders s !! orderId) as [o|] eqn:Ho; [|by intros [= <- _]].
  destruct (decide (Order.status o = ord_paid)); [by intros [= <- _]|].
  destruct (companies s !! Order.companyId o) as [c|]; [|by intros [= <- _]].
  destruct (updateProductStock _ _ _ s) as [s0 r0] eqn:Hstock.
  apply updateProductStock_products in Hstock as [m ->].
  destruct r0 as [|e0]; [|intros [= <- _]; by exists m].
  destruct (processPayment _ _ _ _) as [s1 [tid|e1]] eqn:Hpay.
  - apply processPayment_success in Hpay
      as (p & r & _ & _ & _ & _ & _ & -> & _).
    unfold updateDoc_order. cbn. rewrite Ho. discriminate.
  - apply processPayment_failure_unchanged in Hpay as ->.
    intros [= <- _]. by exists m.
Qed.

Lemma payOrder_failure_keeps_ledger_witness :
  let r := payOrder true Scenario.now "ord-carol" "carol" Scenario.store in
  users (fst r) = users Scenario.store /\
  transactions (fst r) = transactions Scenario.store.
Proof.
  intros r.
  destruct (payOrder_failure_keeps_ledger true Scenario.now "ord-carol"
              "carol" Scenario.store (fst r) "Insufficient wallet balance")
    as [m Hm].
  - vm_compute. reflexivity.
  - rewrite Hm. split; reflexivity.
Defined.

Lemma apply_write_stock_nonneg s w :
  (forall id q at_, w = UpdateProduct id q at_ -> 0 <= q) ->
  stock_nonneg s -> stock_nonneg (apply_write s w).
Proof.
  intros Hw Hs. destruct w as [id b at_|id q at_|t]; try exact Hs.
  intros k p. cbn. rewrite lookup_alter. case_decide as Hk.
  - destruct (products s !! id) as [p0|]; [|discriminate].
    intros [= <-]. cbn. by eapply Hw.
  - apply Hs.
Qed.

Lemma commit_stock_nonneg s ws :
  Forall (fun w => forall id q at_, w = UpdateProduct id q at_ -> 0 <= q) ws ->
  stock_nonneg s -> stock_nonneg (commit s ws).
Proof.
  intros Hws. revert s. unfold commit.
  induction Hws as [|w ws Hw Hws IH]; intros s Hs; [exact Hs|].
  cbn. apply IH. by apply apply_write_stock_nonneg.
Qed.

Lemma updateProductStock_body_nonneg_writes strict now items s ws ws' :
  updateProductStock_body strict now items s ws = inr (tt, ws') ->
  Forall (fun w => forall id q at_, w = UpdateProduct id q at_ -> 0 <= q) ws ->
  Forall (fun w => forall id q at_, w = UpdateProduct id q at_ -> 0 <= q) ws'.
Proof.
  revert ws. induction items as [|it rest IH]; intros ws.
  { cbn. by intros [= <-]. }
  cbn [updateProductStock_body]. unfold tx_bind at 1, tx_get_product.
  destruct (tx_read_cases strict
              (fun snap => products snap !! OrderItem.productId it) s ws)
    as [-> | ->]; [discriminate|].
  destruct (products s !! OrderItem.productId it) as [q|] eqn:Hq;
    [|discriminate].
  destruct (Product.quantity q <? OrderItem.quantity it) eqn:Hcmp;
    [discriminate|].
  unfold tx_bind, tx_update_product. rewrite Hq.
  intros H Hws. apply (IH _ H).
  apply Forall_app. split; [exact Hws|].
  apply Forall_singleton. intros id q' at_ [= _ <- _].
  apply Z.ltb_ge in Hcmp. lia.
Qed.

Lemma updateProductStock_stock_nonneg strict now items s s' res :
  stock_nonneg s ->
  updateProductStock strict now items s = (s', res) ->
  stock_nonneg s'.
Proof.
  intros Hs. unfold updateProductStock, runTransaction.
  destruct (updateProductStock_body strict now items s [])
    as [e|[[] ws]] eqn:Hb.
  - by intros [= <- _].
  - intros [= <- _]. apply commit_stock_nonneg; [|exact Hs].
    eapply updateProductStock_body_nonneg_writes; [exact Hb|constructor].
Qed.

(** X8. [payOrder] never drives a product quantity below zero: if every
    quantity is non-negative before the call, every quantity is
    non-negative after it, whatever the order, the payer and the result. *)
Theorem payOrder_stock_nonneg strict now orderId payerId s s' res :
  stock_nonneg s ->
  payOrder strict now orderId payerId s = (s', res) ->
  stock_nonneg s'.
Proof.
  intros Hs. unfold payOrder.
  destruct (orders s !! orderId) as [o|] eqn:Ho; [|by intros [= <- _]].
  destruct (decide (Order.status o = ord_paid)); [by intros [= <- _]|].
  destruct (companies s !! Order.companyId o) as [c|]; [|by intros [= <- _]].
  destruct (updateProductStock _ _ _ s) as [s0 r0] eqn:Hstock.
  pose proof (updateProductStock_stock_nonneg _ _ _ _ _ _ Hs Hstock) as Hs0.
  destruct r0 as [|e0]; [|by intros [= <- _]].
  destruct (processPayment _ _ _ _) as [s1 [tid|e1]] eqn:Hpay.
  - apply processPayment_success in Hpay
      as (p & r & _ & _ & _ & _ & _ & -> & _).
    unfold updateDoc_order. cbn.
    destruct (orders s0 !! orderId); by intros [= <- _].
  - apply processPayment_failure_unchanged in Hpay as ->.
    by intros [= <- _].
Qed.

Lemma payOrder_stock_nonneg_witness :
  stock_nonneg
    (fst (payOrder true Scenario.now "ord-carol" "alice" Scenario.store)).
Proof.
  apply (payOrder_stock_nonneg true Scenario.now "ord-carol" "alice"
           Scenario.store _
           (snd (payOrder true Scenario.now "ord-carol" "alice"
                   Scenario.store))).
  - apply (bool_decide_unpack _). vm_compute. exact I.
  - vm_compute. reflexivity.
Defined.

Lemma updateProductStock_body_lax now items s ws ws' :
  NoDup (OrderItem.productId <$> items) ->
  updateProductStock_body false now items s ws = inr (tt, ws') ->
  forall s0,
    (forall it p, it ∈ items ->
       products s !! OrderItem.productId it = Some p ->
       products (commit s0 ws') !! OrderItem.productId it =
         set_quantity (Product.quantity p - OrderItem.quantity it) now
           <$> products (commit s0 ws) !! OrderItem.productId it) /\
    (forall k, k ∉ OrderItem.productId <$> items ->
       products (commit s0 ws') !! k = products (commit s0 ws) !! k).
Proof.
  revert ws. induction items as [|it rest IH]; intros ws Hnd.
  { cbn. intros [= <-] s0. split; [|done].
    intros it p Hin. by apply elem_of_nil in Hin. }
  apply NoDup_cons in Hnd as [Hnotin Hnd].
  cbn [updateProductStock_body]. unfold tx_bind at 1, tx_get_product.
  rewrite tx_read_permitted by tauto.
  destruct (products s !! OrderItem.productId it) as [q|] eqn:Hq;
    [|discriminate].
  destruct (Product.quantity q <? OrderItem.quantity it); [discriminate|].
  unfold tx_bind, tx_update_product. rewrite Hq.
  intros H s0. destruct (IH _ Hnd H s0) as [IH1 IH2].
  assert (Hstep : forall k,
            products (commit s0 (ws ++
              [UpdateProduct (OrderItem.productId it)
                 (Product.quantity q - OrderItem.quantity it) now])) !! k
            = if decide (OrderItem.productId it = k)
              then set_quantity (Product.quantity q - OrderItem.quantity it)
                     now <$> products (commit s0 ws) !! OrderItem.productId it
              else products (commit s0 ws) !! k).
  { intros k. rewrite commit_snoc. cbn. apply lookup_alter. }
  split.
  - intros it' p Hin Hp. apply elem_of_cons in Hin as [-> | Hin].
    + assert (p = q) as -> by congruence.
      rewrite IH2 by exact Hnotin.
      rewrite Hstep. by rewrite decide_True.
    + rewrite (IH1 _ _ Hin Hp). rewrite Hstep.
      rewrite decide_False; [done|].
      intros Heq. apply Hnotin. rewrite Heq.
      apply list_elem_of_fmap. by exists it'.
  - intros k Hk. rewrite fmap_cons in Hk.
    apply not_elem_of_cons in Hk as [Hk1 Hk2].
    rewrite IH2 by exact Hk2. rewrite Hstep. by rewrite decide_False.
Qed.

Lemma updateProductStock_body_lax_succeeds now items s ws :
  Forall (in_stock s) items ->
  exists ws', updateProductStock_body false now items s ws = inr (tt, ws').
Proof.
  intros Hitems. revert ws.
  induction Hitems as [|it rest (q & Hq & Hle) Hrest IH]; intros ws.
  { cbn. eauto. }
  cbn [updateProductStock_body]. unfold tx_bind at 1, tx_get_product.
  rewrite tx_read_permitted by tauto. rewrite Hq.
  apply Z.ltb_ge in Hle. rewrite Hle.
  unfold tx_bind, tx_update_product. rewrite Hq. apply IH.
Qed.



(** X10. Where the store client refuses a read issued after a buffered
    write, as the Firestore client does: [updateProductStock] fails for
    every list of two or more items whose first item is in stock, with
    the message of the client, and leaves the store as it was; the second
    product is read after the first decrement was buffered. *)
Theorem updateProductStock_strict_several_items now it1 it2 rest s :
  in_stock s it1 ->
  updateProductStock true now (it1 :: it2 :: rest) s
  = (s, StockFailure reads_before_writes_error).
Proof.
  intros (p & Hp & Hle).
  unfold updateProductStock, runTransaction.
  cbn [updateProductStock_body]. unfold tx_bind at 1, tx_get_product.
  cbn [tx_read]. rewrite Hp.
  apply Z.ltb_ge in Hle. rewrite Hle.
  unfold tx_bind at 1, tx_update_product. rewrite Hp. cbn [app].
  unfold tx_bind at 1. cbn [tx_read]. reflexivity.
Qed.

Lemma updateProductStock_strict_several_items_witness :
  updateProductStock true Scenario.now
    [OrderItem.mk "widget" "Widget" 2; OrderItem.mk "gadget" "Gadget" 1]
    Scenario.store
  = (Scenario.store, StockFailure reads_before_writes_error).
Proof.
  apply updateProductStock_strict_several_items.
  exists (Product.mk "acme" "Widget" 10 true 0).
  split; [vm_compute; reflexivity | cbn; lia].
Defined.


(** ** Looking up the recipient of a transfer *)

(** [getUserByEmail] answers with a document of the store that has the
    requested address, together with its id, and answers nothing exactly
    when no account has that address. *)
Lemma getUserByEmail_spec email s :
  (forall id u, getUserByEmail email s = Some (id, u) ->
     users s !! id = Some u /\ User.email u = email) /\
  (getUserByEmail email s = None <-> email_unknown email s).
Proof.
  unfold getUserByEmail. split.
  - intros id u H. apply head_Some_elem_of in H.
    apply list_elem_of_filter in H as [Hmail Hin].
    apply elem_of_map_to_list in Hin. auto.
  - rewrite head_None. split.
    + intros Hnil id u Hu Hmail.
      eapply (filter_nil_not_elem_of _ _ (id, u)); [exact Hnil|exact Hmail|].
      by apply elem_of_map_to_list.
    + intros Hunknown.
      destruct (filter _ _) as [|[id u] l] eqn:Hf; [done|].
      assert (Hin : (id, u) ∈ filter (fun p => User.email p.2 = email)
                                (map_to_list (users s)))
        by (rewrite Hf; apply elem_of_cons; auto).
      apply list_elem_of_filter in Hin as [Hmail Hin].
      apply elem_of_map_to_list in Hin.
      by destruct (Hunknown id u Hin).
Qed.

(** X13. [transferMoney] answers "Recipient not found" exactly when no
    account has the address of the recipient, and then the store is
    untouched. *)
Theorem transferMoney_recipient_not_found
    strict now fromUserId toUserEmail amount description s :
  (snd (transferMoney strict now fromUserId toUserEmail amount description s)
     = Failure "Recipient not found" <-> email_unknown toUserEmail s) /\
  (email_unknown toUserEmail s ->
   fst (transferMoney strict now fromUserId toUserEmail amount description s)
     = s).
Proof.
  destruct (getUserByEmail_spec toUserEmail s) as [_ Hnone].
  unfold transferMoney.
  destruct (getUserByEmail toUserEmail s) as [[toId u]|] eqn:Hg.
  - assert (Hknown : ~ email_unknown toUserEmail s).
    { intros Hu. apply Hnone in Hu. discriminate. }
    split; [|intros; contradiction].
    split; [|intros; contradiction].
    rewrite processPayment_eq. cbn.
    repeat (case_match; cbn; try discriminate).
  - assert (Hu : email_unknown toUserEmail s) by by apply Hnone.
    split; [|done]. split; [done|reflexivity].
Qed.

(** ** The mobile-money webhook *)

Lemma sendPaymentNotification_frame now i b s :
  exists l, sendPaymentNotification now i b s = with_notifications s l.
Proof.
  unfold sendPaymentNotification.
  destruct (transactions s !! i); [eauto|].
  exists (notifications s). by destruct s.
Qed.

(** A webhook whose reference matches no record changes nothing. *)
Lemma momoWebhook_unknown_reference now reference status s :
  (forall t, t ∈ transactions s ->
     Transaction.metadata t !! "momoReference" <> Some reference) ->
  momoWebhook now reference status s = s.
Proof.
  intros Hnone. unfold momoWebhook.
  destruct (list_find _ (transactions s)) as [[i t]|] eqn:Hf; [|reflexivity].
  apply list_find_Some in Hf as (Hi & Href & _).
  destruct (Hnone t); [|exact Href].
  apply list_elem_of_lookup. eauto.
Qed.

Lemma momoWebhook_unknown_reference_witness :
  momoWebhook 900 "MOMO-1" "FAILED" Scenario.store = Scenario.store.
Proof.
  apply momoWebhook_unknown_reference.
  intros t Ht. vm_compute in Ht. by apply elem_of_nil in Ht.
Defined.

(** X15. A webhook whose reference matches no record changes nothing.
    Whatever it receives, the webhook touches no account, company,
    invoice, order or product; it adds and removes no record; it rewrites
    at most one record; and a record it rewrites keeps its payer,
    receiver, company, amount, type, description, source, metadata and
    creation time: only [status] and [updatedAt] can differ.  In
    particular it never moves money, also when it marks a top-up as
    failed. *)
Theorem momoWebhook_frame now reference status s :
  let s' := momoWebhook now reference status s in
  ((forall t, t ∈ transactions s ->
      Transaction.metadata t !! "momoReference" <> Some reference) ->
   s' = s) /\
  users s' = users s /\ companies s' = companies s /\
  invoices s' = invoices s /\ orders s' = orders s /\
  products s' = products s /\
  length (transactions s') = length (transactions s) /\
  (forall j t, transactions s !! j = Some t ->
     exists t', transactions s' !! j = Some t' /\ same_payment t t') /\
  (exists i, forall j, j <> i -> transactions s' !! j = transactions s !! j).
Proof.
  intros s'. split; [apply momoWebhook_unknown_reference|]. subst s'.
  assert (Hsame : forall t, same_payment t t) by (intros t; by repeat split).
  unfold momoWebhook.
  destruct (list_find _ (transactions s)) as [[i t]|] eqn:Hf.
  2:{ cbn. split_and!; try reflexivity; [eauto | by exists 0%nat]. }
  apply list_find_Some in Hf as (Hi & _ & _).
  match goal with
  | |- context [sendPaymentNotification ?n ?k ?b ?st] =>
      destruct (sendPaymentNotification_frame n k b st) as [l ->]
  end.
  cbn. split_and!; try reflexivity.
  - apply length_insert.
  - intros j u Hj. destruct (decide (i = j)) as [<-|Hne].
    + rewrite list_lookup_insert_eq by (by eapply lookup_lt_Some).
      eexists. split; [reflexivity|].
      assert (u = t) as -> by congruence. by repeat split.
    + rewrite list_lookup_insert_ne by done. eauto.
  - exists i. intros j Hne. by rewrite list_lookup_insert_ne.
Qed.



(** [getUserByEmail] finds the account when addresses are unique. *)
Lemma getUserByEmail_found email s id u :
  emails_unique s ->
  users s !! id = Some u ->
  User.email u = email ->
  getUserByEmail email s = Some (id, u).
Proof.
  intros Huniq Hu Hmail.
  destruct (getUserByEmail_spec email s) as [Hsome Hnone].
  destruct (getUserByEmail email s) as [[id' u']|] eqn:Hg.
  - destruct (Hsome id' u' eq_refl) as [Hu' Hmail'].
    assert (id' = id) as -> by (eapply Huniq; eauto; congruence).
    congruence.
  - assert (Hunk : email_unknown email s) by by apply Hnone.
    by destruct (Hunk id u Hu).
Qed.

(** X12. When no two accounts share an address, [getUserByEmail] answers
    with an account and its id exactly when that account is in the store
    under that id and has the requested address. *)
Theorem getUserByEmail_unique email s id u :
  emails_unique s ->
  getUserByEmail email s = Some (id, u) <->
  users s !! id = Some u /\ User.email u = email.
Proof.
  intros Huniq. split.
  - apply getUserByEmail_spec.
  - intros [Hu Hmail]. by apply getUserByEmail_found.
Qed.

Lemma scenario_emails_unique : emails_unique Scenario.store.
Proof.
  intros id1 id2 u1 u2 H1 H2 Hmail.
  apply elem_of_map_to_list in H1. apply elem_of_map_to_list in H2.
  remember (map_to_list (users Scenario.store)) as l eqn:Hl.
  vm_compute in Hl. subst l.
  repeat match goal with
         | H : _ ∈ _ :: _ |- _ => apply elem_of_cons in H as [H|H]
         | H : _ ∈ [] |- _ => by apply elem_of_nil in H
         end;
    injection H1 as -> ->; injection H2 as -> ->;
    first [reflexivity | discriminate Hmail].
Qed.

Lemma getUserByEmail_unique_witness :
  getUserByEmail "bob@example.com" Scenario.store
  = Some ("bob", Scenario.account "bob@example.com" 50000).
Proof.
  apply (getUserByEmail_unique "bob@example.com" Scenario.store "bob"
           (Scenario.account "bob@example.com" 50000)
           scenario_emails_unique).
  split; [vm_compute; reflexivity | reflexivity].
Defined.

(** ** The validation gate *)



(** X18. [validateStockAvailability] accepts an item list exactly when
    every item names a listed product that is active and holds at least
    the ordered quantity. *)
Theorem validateStockAvailability_valid_iff products orderItems :
  validateStockAvailability products orderItems = Valid <->
  Forall (item_available products) orderItems.
Proof.
  induction orderItems as [|item rest IH]; cbn [validateStockAvailability].
  { split; [constructor|reflexivity]. }
  rewrite Forall_cons. unfold item_available at 1.
  destruct (find_product products (OrderItem.productId item)) as [p|].
  2:{ split; [discriminate|]. intros [(q & Hq & _) _]. discriminate. }
  destruct (Product.isActive p) eqn:Hact; cbn [negb].
  2:{ split; [discriminate|]. intros [(q & [= <-] & Hq & _) _]. congruence. }
  destruct (Product.quantity p <? OrderItem.quantity item) eqn:Hlt.
  - apply Z.ltb_lt in Hlt. split; [discriminate|].
    intros [(q & [= <-] & _ & Hq) _]. lia.
  - apply Z.ltb_ge in Hlt. rewrite IH. split.
    + intros Hrest. split; [|exact Hrest]. exists p. auto.
    + intros [_ Hrest]. exact Hrest.
Qed.

Lemma find_product_map_to_list (m : gmap string Product.t) id :
  find_product (map_to_list m) id = m !! id.
Proof.
  unfold find_product.
  destruct (List.find _ (map_to_list m)) as [[id' p]|] eqn:Hf; cbn.
  - apply find_some in Hf as [Hin Hid].
    apply bool_decide_eq_true in Hid. cbn in Hid. subst id'.
    apply list_elem_of_In, elem_of_map_to_list in Hin. by rewrite Hin.
  - destruct (m !! id) as [p|] eqn:Hm; [|reflexivity].
    apply elem_of_map_to_list, list_elem_of_In in Hm.
    apply (find_none _ _ Hf) in Hm. cbn in Hm.
    by rewrite bool_decide_eq_false in Hm.
Qed.

Lemma validated_items_in_stock items s :
  validateStockAvailability (map_to_list (products s)) items = Valid ->
  Forall (in_stock s) items.
Proof.
  induction items as [|item rest IH]; cbn [validateStockAvailability];
    [constructor|].
  rewrite find_product_map_to_list.
  destruct (products s !! OrderItem.productId item) as [p|] eqn:Hp;
    [|discriminate].
  destruct (negb (Product.isActive p)); [discriminate|].
  destruct (Product.quantity p <? OrderItem.quantity item) eqn:Hlt;
    [discriminate|].
  apply Z.ltb_ge in Hlt. intros Hrest.
  constructor; [|by apply IH]. exists p. auto.
Qed.



(** ** Analytics *)

Lemma sum_amounts_cons t l :
  sum_amounts (t :: l) = Transaction.amount t + sum_amounts l.
Proof.
  unfold sum_amounts. cbn.
  assert (H : forall a, foldl (fun sum t => sum + Transaction.amount t) a l
                        = a + foldl (fun sum t => sum + Transaction.amount t)
                                0 l).
  { induction l as [|x l IH]; intros a; cbn; [lia|].
    rewrite (IH (a + Transaction.amount x)),
      (IH (0 + Transaction.amount x)). lia. }
  rewrite H. lia.
Qed.

Lemma sum_amounts_app l1 l2 :
  sum_amounts (l1 ++ l2) = sum_amounts l1 + sum_amounts l2.
Proof.
  induction l1 as [|t l1 IH]; [reflexivity|].
  cbn [app]. rewrite !sum_amounts_cons, IH. lia.
Qed.


(** What a successful [payInvoice] leaves behind. *)
Lemma payInvoice_success strict now invoiceId payerId s s' id :
  payInvoice strict now invoiceId payerId s = (s', Success id) ->
  exists inv c,
    invoices s !! invoiceId = Some inv /\
    companies s !! Invoice.companyId inv = Some c /\
    id = length (transactions s) /\
    transactions s' =
      transactions s ++
      [transaction_record now (invoice_payment_data invoiceId payerId inv c)].
Proof.
  unfold payInvoice.
  destruct (invoices s !! invoiceId) as [inv|] eqn:Hi; [|discriminate].
  destruct (decide (Invoice.status inv = inv_paid)); [discriminate|].
  destruct (companies s !! Invoice.companyId inv) as [c|] eqn:Hc;
    [|discriminate].
  destruct (processPayment _ _ _ s) as [s1 [tid|e1]] eqn:Hpay; [|discriminate].
  apply processPayment_success in Hpay
    as (p & r & _ & _ & _ & _ & _ & -> & ->).
  unfold updateDoc_invoice. cbn. rewrite Hi. intros [= <- <-].
  exists inv, c. auto.
Qed.



(** ** Cross-app integration *)

Lemma sendPaymentNotification_found now id s t :
  transactions s !! id = Some t ->
  sendPaymentNotification now id true s
  = with_notifications s
      (notifications s ++
       [Notification.mk (Transaction.payerId t) "Payment Successful" id
          false now]).
Proof. intros H. unfold sendPaymentNotification. by rewrite H. Qed.

Lemma payInvoice_success_record strict now invoiceId payerId s s' id :
  payInvoice strict now invoiceId payerId s = (s', Success id) ->
  exists t, transactions s' !! id = Some t /\
            Transaction.payerId t = payerId.
Proof.
  intros H. apply payInvoice_success in H as (inv & c & _ & _ & -> & ->).
  eexists. split; [by apply list_lookup_middle|reflexivity].
Qed.

Lemma payOrder_success_record strict now orderId payerId s s' id :
  payOrder strict now orderId payerId s = (s', Success id) ->
  exists t, transactions s' !! id = Some t /\
            Transaction.payerId t = payerId.
Proof.
  unfold payOrder.
  destruct (orders s !! orderId) as [o|] eqn:Ho; [|discriminate].
  destruct (decide (Order.status o = ord_paid)); [discriminate|].
  destruct (companies s !! Order.companyId o) as [c|]; [|discriminate].
  destruct (updateProductStock _ _ _ s) as [s0 [|e0]]; [|discriminate].
  destruct (processPayment _ _ _ s0) as [s1 [tid|e1]] eqn:Hpay;
    [|discriminate].
  apply processPayment_success in Hpay
    as (p & r & _ & _ & _ & _ & _ & -> & ->).
  unfold updateDoc_order. cbn.
  destruct (orders s0 !! orderId); [|discriminate].
  intros [= <- <-]. cbn.
  eexists. split; [by apply list_lookup_middle|reflexivity].
Qed.

(** X22. For an address that no account has, the integration service
    settles nothing: [processInvoicePayment] and [processOrderPayment]
    leave the store untouched and answer with the registration error and
    a payment link made of the base address, the kind of document and its
    id. *)
Theorem integration_unknown_payer env strict now docId payerEmail s :
  email_unknown payerEmail s ->
  processInvoicePayment env strict now docId payerEmail s
    = (s, mkIntegrationResult false None
            (Some (base_url env +:+ "/pay/invoice/" +:+ docId))
            (Some "Customer needs to register in PayFlow first")) /\
  processOrderPayment env strict now docId payerEmail s
    = (s, mkIntegrationResult false None
            (Some (base_url env +:+ "/pay/order/" +:+ docId))
            (Some "Customer needs to register in PayFlow first")).
Proof.
  intros Hunk. apply getUserByEmail_spec in Hunk.
  unfold processInvoicePayment, processOrderPayment. by rewrite Hunk.
Qed.

Lemma integration_unknown_payer_witness :
  processInvoicePayment None true Scenario.now "inv-open"
    "erin@example.com" Scenario.store
  = (Scenario.store,
     mkIntegrationResult false None
       (Some "https://payflow.sz/pay/invoice/inv-open")
       (Some "Customer needs to register in PayFlow first")).
Proof.
  apply (integration_unknown_payer None true Scenario.now "inv-open"
           "erin@example.com" Scenario.store).
  apply getUserByEmail_spec. vm_compute. reflexivity.
Defined.

(** X23. For the address of an account (addresses being unique),
    [processInvoicePayment] succeeds exactly when [payInvoice] does for
    that account.  On success the store is the one [payInvoice] leaves,
    with one more notification, "Payment Successful", for the payer and
    the new record; on failure it is the store [payInvoice] leaves and
    the error is passed on. *)
Theorem processInvoicePayment_known_payer
    env strict now invoiceId payerEmail s payerId u :
  emails_unique s ->
  users s !! payerId = Some u ->
  User.email u = payerEmail ->
  let r := payInvoice strict now invoiceId payerId s in
  processInvoicePayment env strict now invoiceId payerEmail s =
  match snd r with
  | Success id =>
      (with_notifications (fst r)
         (notifications (fst r) ++
          [Notification.mk payerId "Payment Successful" id false now]),
       mkIntegrationResult true (Some id) None None)
  | Failure e => (fst r, mkIntegrationResult false None None (Some e))
  end.
Proof.
  intros Huniq Hu Hmail r. subst r.
  unfold processInvoicePayment.
  rewrite (getUserByEmail_found payerEmail s payerId u) by done.
  destruct (payInvoice strict now invoiceId payerId s) as [s1 [id|e]] eqn:Hpay;
    [|reflexivity].
  destruct (payInvoice_success_record _ _ _ _ _ _ _ Hpay) as (t & Ht & <-).
  cbn [fst snd integration_result].
  by rewrite (sendPaymentNotification_found now id s1 t Ht).
Qed.

Lemma processInvoicePayment_known_payer_witness :
  let r := processInvoicePayment None true Scenario.now "inv-open"
             "alice@example.com" Scenario.store in
  snd r = mkIntegrationResult true (Some 0%nat) None None /\
  notifications (fst r)
  = [Notification.mk "alice" "Payment Successful" 0 false Scenario.now].
Proof.
  intros r. subst r.
  rewrite (processInvoicePayment_known_payer None true Scenario.now
             "inv-open" "alice@example.com" Scenario.store "alice"
             (Scenario.account "alice@example.com" 100000)
             scenario_emails_unique);
    [|vm_compute; reflexivity|reflexivity].
  vm_compute. split; reflexivity.
Defined.

(** X24. The same for orders: for the address of an account,
    [processOrderPayment] succeeds exactly when [payOrder] does for that
    account, and then adds one "Payment Successful" notification for the
    payer; a failure passes the error on and leaves the store as
    [payOrder] left it. *)
Theorem processOrderPayment_known_payer
    env strict now orderId payerEmail s payerId u :
  emails_unique s ->
  users s !! payerId = Some u ->
  User.email u = payerEmail ->
  let r := payOrder strict now orderId payerId s in
  processOrderPayment env strict now orderId payerEmail s =
  match snd r with
  | Success id =>
      (with_notifications (fst r)
         (notifications (fst r) ++
          [Notification.mk payerId "Payment Successful" id false now]),
       mkIntegrationResult true (Some id) None None)
  | Failure e => (fst r, mkIntegrationResult false None None (Some e))
  end.
Proof.
  intros Huniq Hu Hmail r. subst r.
  unfold processOrderPayment.
  rewrite (getUserByEmail_found payerEmail s payerId u) by done.
  destruct (payOrder strict now orderId payerId s) as [s1 [id|e]] eqn:Hpay;
    [|reflexivity].
  destruct (payOrder_success_record _ _ _ _ _ _ _ Hpay) as (t & Ht & <-).
  cbn [fst snd integration_result].
  by rewrite (sendPaymentNotification_found now id s1 t Ht).
Qed.

Lemma processOrderPayment_known_payer_witness :
  let r := processOrderPayment None true Scenario.now "ord-carol"
             "carol@example.com" Scenario.store in
  snd r = mkIntegrationResult false None None
            (Some "Insufficient wallet balance") /\
  notifications (fst r) = [].
Proof.
  intros r. subst r.
  rewrite (processOrderPayment_known_payer None true Scenario.now
             "ord-carol" "carol@example.com" Scenario.store "carol"
             (Scenario.account "carol@example.com" 5000)
             scenario_emails_unique);
    [|vm_compute; reflexivity|reflexivity].
  vm_compute. split; reflexivity.
Defined.

(** X14. A payment request answers with a link exactly when some
    account has the address, and the link is the base address followed by
    the kind of document and its id; the document itself is never looked
    up. *)
Theorem requestPayment_link env docId payerEmail s :
  (email_unknown payerEmail s ->
   InvoiceFlowSDK_requestPayment env docId payerEmail s
     = RequestFailure "Customer not found in PayFlow system" /\
   StockFlowSDK_requestPayment env docId payerEmail s
     = RequestFailure "Customer not found in PayFlow system") /\
  (~ email_unknown payerEmail s ->
   InvoiceFlowSDK_requestPayment env docId payerEmail s
     = RequestLink (base_url env +:+ "/pay/invoice/" +:+ docId) /\
   StockFlowSDK_requestPayment env docId payerEmail s
     = RequestLink (base_url env +:+ "/pay/order/" +:+ docId)).
Proof.
  unfold InvoiceFlowSDK_requestPayment, StockFlowSDK_requestPayment.
  destruct (getUserByEmail_spec payerEmail s) as [_ Hnone].
  destruct (getUserByEmail payerEmail s) as [[id u]|].
  - split; [|done]. intros Hunk. apply Hnone in Hunk. discriminate.
  - split; [done|]. intros Hknown. destruct Hknown. by apply Hnone.
Qed.

(** ** Cloud functions *)

(** X25. The callable [processPayment] throws exactly when the caller is
    not authenticated, has no user document, or is deactivated; a call
    that throws leaves the store untouched. *)
Theorem callable_processPayment_throws strict now auth data s :
  let r := Functions.processPayment strict now auth data s in
  (forall e, snd r = inl e ->
     fst r = s /\
     ((auth = None /\ e = "Authentication required") \/
      (exists uid, auth = Some uid /\ users s !! uid = None /\
                   e = "User not found") \/
      (exists uid u, auth = Some uid /\ users s !! uid = Some u /\
                     User.isActive u = false /\
                     e = "Account is deactivated"))) /\
  ((exists uid u, auth = Some uid /\ users s !! uid = Some u /\
                  User.isActive u = true) ->
   exists res, snd r = inr res).
Proof.
  unfold Functions.processPayment. cbn zeta.
  destruct auth as [uid|].
  2:{ split; [|intros (? & ? & [=] & _)].
      intros e [= <-]. split; [reflexivity|]. left. auto. }
  destruct (users s !! uid) as [u|] eqn:Hu.
  2:{ split; [|intros (uid' & u' & [= <-] & Hu' & _); congruence].
      intros e [= <-]. split; [reflexivity|]. right. left. eauto. }
  destruct (User.isActive u) eqn:Hact; cbn [negb].
  - destruct (processPayment _ _ _ s) as [s' res].
    split; [intros e [=]|]. intros _. eauto.
  - split.
    + intros e [= <-]. split; [reflexivity|]. right. right.
      exists uid, u. auto.
    + intros (uid' & u' & [= <-] & Hu' & Hact'). congruence.
Qed.



(** *** Phone numbers *)

Lemma strip_prefix_Some p s rest :
  Functions.strip_prefix p s = Some rest <-> s = p +:+ rest.
Proof.
  revert s. induction p as [|a p IH]; intros s; cbn.
  { split; [intros [= ->]|intros ->]; reflexivity. }
  destruct s as [|b s]; [split; discriminate|].
  destruct (decide (a = b)) as [->|Hne].
  - rewrite IH. split; [intros ->|intros [= ->]]; reflexivity.
  - split; [discriminate|]. intros [= ? _]. congruence.
Qed.

Lemma string_length_app (a b : string) :
  String.length (a +:+ b) = (String.length a + String.length b)%nat.
Proof.
  induction a as [|c a IH]; [reflexivity|].
  change (S (String.length (a +:+ b))
          = S (String.length a + String.length b)).
  by rewrite IH.
Qed.

Lemma local_number_length n :
  Functions.local_number n = true -> String.length n = 8%nat.
Proof.
  destruct n as [|c rest]; [discriminate|]. cbn.
  rewrite !andb_true_iff, bool_decide_eq_true. intros [[_ ->] _]. reflexivity.
Qed.


(** *** Mobile-money top-up *)


(** The record and the store a successful mobile-money top-up leaves. *)
Lemma processMoMoPayment_success
    strict now phone amt uid transactionRef s u :
  Functions.valid_phone phone = true ->
  amt <> 0 ->
  uid <> "" ->
  users s !! uid = Some u ->
  User.isActive u = true ->
  Functions.processMoMoPayment strict now (Some phone) (Some amt) (Some uid)
    transactionRef true s
  = (settled now
       (topUp_data uid amt momo
          (Some (<["phoneNumber" := phone]>
                   (<["momoReference" := transactionRef]> ∅)))) u u s,
     Functions.mkMoMoResponse 200 true (Some (length (transactions s)))
       (Some transactionRef) None).
Proof.
  intros Hphone Hamt Huid Hu Hact.
  unfold Functions.processMoMoPayment.
  assert (phone <> "") by (intros ->; discriminate).
  rewrite !bool_decide_eq_false_2 by done. cbn [orb].
  rewrite Hphone. cbn [negb].
  unfold topUpWallet.
  rewrite (processPayment_succeeds strict now _ s u u); cbn; auto.
  intros Hty. by destruct Hty.
Qed.




